(** * Painting by Numbers: the particle simulation engine of [src/App.jsx]

    A shallow embedding of [algorithmStep] and of the [Particles] component
    (its [useEffect] pool builder and its [useFrame] stepper), and the
    properties of the engine stated over it.

    JavaScript numbers are kept behind the interface [JSNumber], which lists
    the operators and built-ins the source applies to them.  The program is
    written once over that interface and read in two models:
    - [FloatNum]: IEEE 754 binary64 as the kernel computes it, with rounding,
      NaN, signed zeros and [parseFloat]; it is what the program computes,
      and it runs;
    - [RealNum]: exact real arithmetic, for the ranges on which rounding has
      no say and for concrete runs of the structural properties.
    What holds in every model is stated over the interface. *)

From Stdlib Require Import ZArith QArith Reals Lra Floats String Ascii.
From stdpp Require Import base option list gmap.

(** ** Numbers *)

(** Everything [App.jsx] does with a number. [raw] is what a parameter slot
    may hold before [parseFloat] reads it. *)
Class JSNumber := {
  num : Type;
  raw : Type;
  lit : Q -> num;                  (* a numeric literal of the source text *)
  add : num -> num -> num;         (* a + b *)
  sub : num -> num -> num;         (* a - b *)
  mul : num -> num -> num;         (* a * b *)
  div : num -> num -> num;         (* a / b *)
  neg : num -> num;                (* -a *)
  Math_sin : num -> num;
  Math_min : num -> num -> num;
  Math_fround : num -> num;        (* what a Float32Array element keeps *)
  parseFloat : raw -> num;
  Object_is : num -> num -> bool;  (* SameValue, React's dependency test *)
}.

Declare Scope js_scope.
Delimit Scope js_scope with js.
Notation "a + b" := (add a b) : js_scope.
Notation "a - b" := (sub a b) : js_scope.
Notation "a * b" := (mul a b) : js_scope.
Notation "a / b" := (div a b) : js_scope.
Notation "- a" := (neg a) : js_scope.

(** ** Data model *)

Section Engine.
Context {N : JSNumber}.
Local Open Scope js_scope.

(** THREE.Vector3: three mutable number fields. *)
Record Vector3 := mkVector3 { x : num; y : num; z : num }.

(** [{ pos, vel, seed }]; each particle owns its two vectors, which are
    created with it and never shared. *)
Record Particle := mkParticle { pos : Vector3; vel : Vector3; seed : num }.

(** The [params] object ([sim] in [App]). *)
Record Params := mkParams {
  paused : bool;
  count : nat;
  pointSize : num;
  speed : num;
  scale : num;
  attraction : num;
  spawnRadius : num;
  cRe : raw;
  cIm : raw;
  resetToken : num;
}.

(** Field assignments [v.x = a], [p.pos = v], ... *)
Definition set_x (v : Vector3) (a : num) : Vector3 := mkVector3 a (y v) (z v).
Definition set_y (v : Vector3) (a : num) : Vector3 := mkVector3 (x v) a (z v).
Definition set_z (v : Vector3) (a : num) : Vector3 := mkVector3 (x v) (y v) a.
Definition set_pos (p : Particle) (v : Vector3) : Particle := mkParticle v (vel p) (seed p).
Definition set_vel (p : Particle) (v : Vector3) : Particle := mkParticle (pos p) v (seed p).

(** Vector3.addScaledVector(v, s): [this.x += v.x * s; ...]. *)
Definition addScaledVector (this v : Vector3) (s : num) : Vector3 :=
  let this := set_x this (x this + x v * s) in
  let this := set_y this (y this + y v * s) in
  let this := set_z this (z this + z v * s) in
  this.

(** Vector3.multiplyScalar(s): [this.x *= s; ...]. *)
Definition multiplyScalar (this : Vector3) (s : num) : Vector3 :=
  let this := set_x this (x this * s) in
  let this := set_y this (y this * s) in
  let this := set_z this (z this * s) in
  this.

(** ** The per-particle update (App.jsx, lines 13-41)

    [p] is passed by reference and mutated; the embedding threads the object
    through the assignments in source order and returns its final value. *)
Definition algorithmStep (p : Particle) (t dt : num) (params : Params) : Particle :=
  let '(scale, attraction, speed) := (scale params, attraction params, speed params) in
  let cRe := parseFloat (cRe params) in
  let cIm := parseFloat (cIm params) in
  (* Map 3D position -> complex plane *)
  let x0 := x (pos p) / scale in
  let y0 := y (pos p) / scale in
  (* Julia iteration: z = z^2 + c *)
  let xNew := x0 * x0 - y0 * y0 + cRe in
  let yNew := lit 2 * x0 * y0 + cIm in
  let x0 := xNew in
  let y0 := yNew in
  (* Back to 3D with subtle depth animation *)
  let p := set_pos p (set_x (pos p) (x0 * scale)) in
  let p := set_pos p (set_y (pos p) (y0 * scale)) in
  let p := set_pos p (set_z (pos p)
             (Math_sin (t * lit 0.5 + seed p) * scale * lit 0.3)) in
  (* Gentle attraction to origin *)
  let p := set_vel p (set_x (vel p) (x (vel p) + - x (pos p) * attraction * dt)) in
  let p := set_vel p (set_y (vel p) (y (vel p) + - y (pos p) * attraction * dt)) in
  let p := set_vel p (set_z (vel p) (z (vel p) + - z (pos p) * attraction * dt)) in
  (* Integrate *)
  let p := set_pos p (addScaledVector (pos p) (vel p) (dt * speed)) in
  let p := set_vel p (multiplyScalar (vel p) (lit 0.96)) in
  p.

(** *** The update read stage by stage

    The six steps as separate functions of the particle, each taking the
    particle its predecessor left. *)

(** (1)+(2): projection on the plane and one iteration of [z <- z^2 + c]. *)
Definition julia_re (p : Particle) (params : Params) : num :=
  let a := x (pos p) / scale params in
  let b := y (pos p) / scale params in
  a * a - b * b + parseFloat (cRe params).

Definition julia_im (p : Particle) (params : Params) : num :=
  let a := x (pos p) / scale params in
  let b := y (pos p) / scale params in
  lit 2 * a * b + parseFloat (cIm params).

(** (3): write-back; [z] comes from the clock and the seed alone. *)
Definition remap (t : num) (params : Params) (p : Particle) : Particle :=
  mkParticle
    (mkVector3 (julia_re p params * scale params)
               (julia_im p params * scale params)
               (Math_sin (t * lit 0.5 + seed p) * scale params * lit 0.3))
    (vel p) (seed p).

(** (4): [velocity += -position * attraction * dt]. *)
Definition attract (dt : num) (params : Params) (p : Particle) : Particle :=
  mkParticle (pos p)
    (mkVector3 (x (vel p) + - x (pos p) * attraction params * dt)
               (y (vel p) + - y (pos p) * attraction params * dt)
               (z (vel p) + - z (pos p) * attraction params * dt))
    (seed p).

(** (5): [position += velocity * (dt * speed)]. *)
Definition integrate (dt : num) (params : Params) (p : Particle) : Particle :=
  mkParticle
    (mkVector3 (x (pos p) + x (vel p) * (dt * speed params))
               (y (pos p) + y (vel p) * (dt * speed params))
               (z (pos p) + z (vel p) * (dt * speed params)))
    (vel p) (seed p).

(** (6): [velocity *= 0.96]. *)
Definition damp (p : Particle) : Particle :=
  mkParticle (pos p)
    (mkVector3 (x (vel p) * lit 0.96) (y (vel p) * lit 0.96) (z (vel p) * lit 0.96))
    (seed p).

(** ** The [Particles] component (App.jsx, lines 43-93)

    What persists between renders and frames: the two refs, the memoized
    [dummy], the mesh behind [meshRef], and what React and the JavaScript
    runtime keep for the component (the dependencies of the last effect run,
    the identities handed to new objects, how often [Math.random] was
    called). *)

(** A particle object in the pool: the identity the runtime gave it when the
    object literal was evaluated, and its current fields.  The pool array is
    the only holder of the reference, so the object is stored with it. *)
Record ParticleObject := mkObject { identity : nat; fields : Particle }.

(** The matrix [Object3D.updateMatrix] composes from a position, the identity
    rotation and a scale. *)
Record Matrix4 := compose { translation : Vector3; scaling : Vector3 }.

(** THREE.Object3D, as far as [dummy] is used. *)
Record Object3D := mkObject3D {
  position : Vector3;
  object_scale : Vector3;
  matrix : Matrix4;
}.

(** THREE.InstancedMesh: the transform buffer by slot, its dirty flag, and
    the number of [setMatrixAt] calls it has received. *)
Record InstancedMesh := mkMesh {
  instanceMatrix : gmap nat Matrix4;
  needsUpdate : bool;
  setMatrixAt_calls : nat;
}.

Record Component := mkComponent {
  next_identity : nat;                      (* runtime: next fresh object identity *)
  random_calls : nat;                       (* runtime: Math.random() calls so far *)
  particles_array : nat;                    (* identity of the array in particles.current *)
  particles_current : list ParticleObject;  (* its elements *)
  clock_current : num;                      (* clock.current *)
  effect_deps : option (nat * num * num);   (* React: deps of the last effect run *)
  dummy : Object3D;
  meshRef_current : InstancedMesh;
}.

(** The values successive calls of [Math.random()] return. *)
Context (Math_random : nat -> num).

(** [new THREE.Object3D()] *)
Definition new_Object3D : Object3D :=
  let zero := mkVector3 (lit 0) (lit 0) (lit 0) in
  let ones := mkVector3 (lit 1) (lit 1) (lit 1) in
  mkObject3D zero ones (compose zero ones).

(** Vector3.copy(v) and Vector3.setScalar(s) give [this] these fields. *)
Definition copy (v : Vector3) : Vector3 := mkVector3 (x v) (y v) (z v).
Definition setScalar (s : num) : Vector3 := mkVector3 s s s.

(** Object3D.updateMatrix() *)
Definition updateMatrix (o : Object3D) : Object3D :=
  mkObject3D (position o) (object_scale o) (compose (position o) (object_scale o)).

(** [instanceMatrix.array] is a Float32Array: an element written to it is
    converted to the nearest float32. *)
Definition Float32Array_set (m : Matrix4) : Matrix4 :=
  let store v := mkVector3 (Math_fround (x v)) (Math_fround (y v)) (Math_fround (z v)) in
  compose (store (translation m)) (store (scaling m)).

(** InstancedMesh.setMatrixAt(i, m): [m.toArray(instanceMatrix.array, i * 16)]
    copies the elements of [m] into slot [i] of the buffer. *)
Definition setMatrixAt (i : nat) (m : Matrix4) (mesh : InstancedMesh) : InstancedMesh :=
  mkMesh (<[i := Float32Array_set m]> (instanceMatrix mesh)) (needsUpdate mesh)
    (S (setMatrixAt_calls mesh)).

(** [new THREE.InstancedMesh(geometry, material, count)]: no slot written. *)
Definition new_InstancedMesh : InstancedMesh := mkMesh ∅ false 0.

(** The component before its first render: [useRef([])], [useRef(0)],
    [useMemo(() => new THREE.Object3D(), [])], an empty mesh, no effect run. *)
Definition Particles_mount : Component :=
  mkComponent 1 0 0 [] (lit 0) None new_Object3D new_InstancedMesh.

(** *** The effect (lines 50-62) *)

(** One turn of the [for] loop: four [Math.random()] calls in argument order,
    a fresh object, [temp.push]. *)
Definition spawn (R : num) (next calls : nat) : ParticleObject :=
  let pos := mkVector3 ((Math_random calls - lit 0.5) * R * lit 2)
                       ((Math_random (calls + 1) - lit 0.5) * R * lit 2)
                       ((Math_random (calls + 2) - lit 0.5) * R * lit 2) in
  let vel := mkVector3 (lit 0) (lit 0) (lit 0) in
  mkObject next (mkParticle pos vel (Math_random (calls + 3) * lit 1000)).

(** [for (let i = 0; i < count; i++) { ... temp.push(...) }], by the number
    of turns left; returns [temp] and the runtime counters. *)
Fixpoint spawn_loop (turns : nat) (R : num) (temp : list ParticleObject) (next calls : nat)
  : list ParticleObject * nat * nat :=
  match turns with
  | O => (temp, next, calls)
  | S turns => spawn_loop turns R (temp ++ [spawn R next calls]) (S next) (calls + 4)
  end.

Definition Particles_useEffect (count : nat) (params : Params) (s : Component) : Component :=
  (* const temp = [] *)
  let temp_id := next_identity s in
  let '(temp, next, calls) :=
    spawn_loop count (spawnRadius params) [] (S temp_id) (random_calls s) in
  (* particles.current = temp *)
  mkComponent next calls temp_id temp
    (clock_current s) (effect_deps s) (dummy s) (meshRef_current s).

(** *** Rendering: when React runs the effect

    The effect runs after the first render, and after a later render exactly
    when some entry of [[count, params.spawnRadius, params.resetToken]] is not
    the same value ([Object.is]) as at the previous render.  A render and the
    effect it schedules are taken as one step: no frame comes between.

    The mesh is created from [args={[undefined, undefined, count]}]
    (line 83): react-three-fiber constructs it at the first render, and
    constructs a new one, which [meshRef] then points to, when [count] is not
    what it was at the previous render. *)
Definition same_deps (a b : nat * num * num) : bool :=
  let '(c, r, k) := a in
  let '(c', r', k') := b in
  Nat.eqb c c' && Object_is r r' && Object_is k k'.

Definition Particles (count : option nat) (params : Params) (s : Component) : Component :=
  (* function Particles({ count = 1500, params }) *)
  let count := default 1500 count in
  let deps := (count, spawnRadius params, resetToken params) in
  let run :=
    match effect_deps s with
    | None => true
    | Some old => negb (same_deps old deps)
    end in
  let mesh :=
    match effect_deps s with
    | None => new_InstancedMesh
    | Some (c, _, _) => if Nat.eqb c count then meshRef_current s else new_InstancedMesh
    end in
  if run then
    let s := Particles_useEffect count params s in
    mkComponent (next_identity s) (random_calls s) (particles_array s) (particles_current s)
      (clock_current s) (Some deps) (dummy s) mesh
  else s.

(** [<Particles count={params.count} params={params} />] *)
Definition PatternSimulator (params : Params) (s : Component) : Component :=
  Particles (Some (count params)) params s.

(** *** The frame callback (lines 65-80) *)

(** The loop body at index [i] on particle [p]: returns the particle as the
    update left it, and the [dummy] and mesh after the slot was written. *)
Definition frame_body (i : nat) (t dt : num) (params : Params)
    (p : ParticleObject) (d : Object3D) (mesh : InstancedMesh)
  : ParticleObject * Object3D * InstancedMesh :=
  let p := mkObject (identity p) (algorithmStep (fields p) t dt params) in
  let d := mkObject3D (copy (pos (fields p))) (object_scale d) (matrix d) in
  let d := mkObject3D (position d) (setScalar (pointSize params)) (matrix d) in
  let d := updateMatrix d in
  (p, d, setMatrixAt i (matrix d) mesh).

(** [for (let i = 0; i < particles.current.length; i++)], from index [i] over
    the elements not yet visited. *)
Fixpoint frame_loop (i : nat) (t dt : num) (params : Params)
    (rest : list ParticleObject) (d : Object3D) (mesh : InstancedMesh)
  : list ParticleObject * Object3D * InstancedMesh :=
  match rest with
  | [] => ([], d, mesh)
  | p :: rest =>
      let '(p, d, mesh) := frame_body i t dt params p d mesh in
      let '(rest, d, mesh) := frame_loop (S i) t dt params rest d mesh in
      (p :: rest, d, mesh)
  end.

Definition Particles_useFrame (delta : num) (params : Params) (s : Component) : Component :=
  if paused params then s else
  (* clock.current += delta *)
  let clock := clock_current s + delta in
  let t := clock in
  let dt := Math_min delta (lit 0.033) in
  let '(ps, d, mesh) :=
    frame_loop 0 t dt params (particles_current s) (dummy s) (meshRef_current s) in
  (* meshRef.current.instanceMatrix.needsUpdate = true *)
  let mesh := mkMesh (instanceMatrix mesh) true (setMatrixAt_calls mesh) in
  mkComponent (next_identity s) (random_calls s) (particles_array s) ps
    clock (effect_deps s) d mesh.

(** Successive frames, each with its own delta and the [params] of the
    latest render. *)
Fixpoint frames (inputs : list (num * Params)) (s : Component) : Component :=
  match inputs with
  | [] => s
  | (delta, params) :: inputs => frames inputs (Particles_useFrame delta params s)
  end.

(** Successive updates of one particle; [inputs k] is the clock, the delta
    and the parameters of the update number [k]. *)
Fixpoint orbit (inputs : nat -> num * num * Params) (p : Particle) (n : nat) : Particle :=
  match n with
  | O => p
  | S n =>
      let '(t, dt, params) := inputs n in
      algorithmStep (orbit inputs p n) t dt params
  end.

(** What one frame does to a particle object: same identity, fields updated. *)
Definition stepped (t dt : num) (params : Params) (o : ParticleObject) : ParticleObject :=
  mkObject (identity o) (algorithmStep (fields o) t dt params).

(** What a frame leaves in the buffer for a particle: its position and the
    uniform scale [params.pointSize], as float32. *)
Definition transform_of (params : Params) (o : ParticleObject) : Matrix4 :=
  Float32Array_set (compose (copy (pos (fields o))) (setScalar (pointSize params))).

(** The pool the effect builds when the allocation cursor is at [next] and
    [Math.random] has been called [calls] times. *)
Definition fresh_pool (count : nat) (R : num) (next calls : nat) : list ParticleObject :=
  map (fun i => spawn R (next + i)%nat (calls + 4 * i)%nat) (seq 0 count).

(** *** What the runtime guarantees of a component

    Identities already handed out lie below the allocation cursor, and no
    two particles of the pool are the same object. *)
Definition well_formed (s : Component) : Prop :=
  particles_array s < next_identity s
  /\ Forall (fun o => identity o < next_identity s) (particles_current s)
  /\ NoDup (map identity (particles_current s)).

(** The states a mounted component goes through: a first render, then
    renders and frames in any order. *)
Inductive reachable : Component -> Prop :=
  | reach_first (count : option nat) (params : Params) :
      reachable (Particles count params Particles_mount)
  | reach_render (count : option nat) (params : Params) (s : Component) :
      reachable s -> reachable (Particles count params s)
  | reach_frame (delta : num) (params : Params) (s : Component) :
      reachable s -> reachable (Particles_useFrame delta params s).

End Engine.

Arguments Particles_mount {N}.
Arguments new_Object3D {N}.
Arguments new_InstancedMesh {N}.

(** ** The update as the runtime executes it

    [algorithmStep] once more, now as the property reads and writes the
    JavaScript performs, in the order it performs them, on the state of the
    runtime: the particle objects by reference, and the state behind
    [Math.random].  A computation of type [JS] may read or write any object
    and may draw random numbers; which of these the update does is read off
    its text. *)

Section Interpreter.
Context {N : JSNumber} (Math_random : nat -> num).
Local Open Scope js_scope.

Record Runtime := mkRuntime {
  heap : gmap nat Particle;   (* the particle objects, by reference *)
  random_drawn : nat;         (* Math.random() calls so far *)
}.

(** A computation: it returns a value and the runtime it leaves, or throws
    (a property of [undefined] was read). *)
Definition JS (A : Type) : Type := Runtime -> option (A * Runtime).

#[global] Instance JS_bind : MBind JS := fun A B f m w =>
  match m w with
  | Some (a, w) => f a w
  | None => None
  end.

(** Reading a field of the object [p] refers to. *)
Definition get {A : Type} (p : nat) (field : Particle -> A) : JS A :=
  fun w =>
    match heap w !! p with
    | Some o => Some (field o, w)
    | None => None
    end.

(** Assigning to a field of the object [p] refers to. *)
Definition assign (p : nat) (set : Particle -> Particle) : JS unit :=
  fun w =>
    match heap w !! p with
    | Some o => Some (tt, mkRuntime (<[p := set o]> (heap w)) (random_drawn w))
    | None => None
    end.

(** [Math.random()] *)
Definition Math_random_call : JS num :=
  fun w => Some (Math_random (random_drawn w), mkRuntime (heap w) (S (random_drawn w))).

(** [p.pos.addScaledVector(p.vel, s)] *)
Definition addScaledVector_run (p : nat) (s : num) : JS unit :=
  a ← get p (fun o => x (pos o)); b ← get p (fun o => x (vel o));
  assign p (fun o => set_pos o (set_x (pos o) (a + b * s)));;
  a ← get p (fun o => y (pos o)); b ← get p (fun o => y (vel o));
  assign p (fun o => set_pos o (set_y (pos o) (a + b * s)));;
  a ← get p (fun o => z (pos o)); b ← get p (fun o => z (vel o));
  assign p (fun o => set_pos o (set_z (pos o) (a + b * s))).

(** [p.vel.multiplyScalar(s)] *)
Definition multiplyScalar_run (p : nat) (s : num) : JS unit :=
  a ← get p (fun o => x (vel o));
  assign p (fun o => set_vel o (set_x (vel o) (a * s)));;
  a ← get p (fun o => y (vel o));
  assign p (fun o => set_vel o (set_y (vel o) (a * s)));;
  a ← get p (fun o => z (vel o));
  assign p (fun o => set_vel o (set_z (vel o) (a * s))).

(** [algorithmStep(p, t, dt, params)], lines 13-41, statement by statement. *)
Definition algorithmStep_run (p : nat) (t dt : num) (params : Params) : JS unit :=
  let '(scale, attraction, speed) := (scale params, attraction params, speed params) in
  let cRe := parseFloat (cRe params) in
  let cIm := parseFloat (cIm params) in
  (* let x = p.pos.x / scale; let y = p.pos.y / scale *)
  px ← get p (fun o => x (pos o));
  let x0 := px / scale in
  py ← get p (fun o => y (pos o));
  let y0 := py / scale in
  let xNew := x0 * x0 - y0 * y0 + cRe in
  let yNew := lit 2 * x0 * y0 + cIm in
  let x0 := xNew in
  let y0 := yNew in
  (* p.pos.x = x * scale; p.pos.y = y * scale; p.pos.z = Math.sin(...) * ... *)
  assign p (fun o => set_pos o (set_x (pos o) (x0 * scale)));;
  assign p (fun o => set_pos o (set_y (pos o) (y0 * scale)));;
  sd ← get p seed;
  assign p (fun o => set_pos o (set_z (pos o) (Math_sin (t * lit 0.5 + sd) * scale * lit 0.3)));;
  (* p.vel.x += -p.pos.x * attraction * dt; ... *)
  v ← get p (fun o => x (vel o)); a ← get p (fun o => x (pos o));
  assign p (fun o => set_vel o (set_x (vel o) (v + - a * attraction * dt)));;
  v ← get p (fun o => y (vel o)); a ← get p (fun o => y (pos o));
  assign p (fun o => set_vel o (set_y (vel o) (v + - a * attraction * dt)));;
  v ← get p (fun o => z (vel o)); a ← get p (fun o => z (pos o));
  assign p (fun o => set_vel o (set_z (vel o) (v + - a * attraction * dt)));;
  addScaledVector_run p (dt * speed);;
  multiplyScalar_run p (lit 0.96).

End Interpreter.

(** ** The real-number model

    Numbers are exact reals: no rounding, no overflow, no NaN.  A parameter
    slot holds a real and [parseFloat] returns it; [a / 0] is the total
    division of the reals library. *)
Definition RealNum : JSNumber := {|
  num := R;
  raw := R;
  lit := Q2R;
  add := Rplus;
  sub := Rminus;
  mul := Rmult;
  div := Rdiv;
  neg := Ropp;
  Math_sin := sin;
  Math_min := Rmin;
  Math_fround := fun r => r;
  parseFloat := fun r => r;
  Object_is := fun a b => if Req_dec_T a b then true else false;
|}.

(** ** The binary64 model *)

(** The values a slot of [params] is taken to hold: undefined, null, a
    boolean, a Number or a String.  These are the values [parseFloat]
    converts to a string without running any code of the value.  (On a
    Symbol [parseFloat] throws a TypeError, and on an object it runs the
    object's own [toString]; neither is covered here.) *)
Inductive JSValue :=
  | VUndefined
  | VNull
  | VBoolean (b : bool)
  | VNumber (f : float)
  | VString (s : string).

(** The binary64 nearest to a rational (ties to even): how a numeric literal
    and the digits read by [parseFloat] become a Number. *)
Definition round_Q (q : Q) : float :=
  let n :=
    match Qnum q with
    | Z0 => S754_zero false
    | Zpos m => S754_finite false m 0
    | Zneg m => S754_finite true m 0
    end in
  SF2Prim (SFdiv prec emax n (S754_finite false (Qden q) 0)).

(** Math.min on two arguments: NaN if either is NaN, and -0 below +0. *)
Definition float_min (a b : float) : float :=
  if is_nan a || is_nan b then nan
  else if (a <? b)%float then a
  else if (b <? a)%float then b
  else if get_sign a then a else b.

(** Math.fround, the conversion a Float32Array applies to what is stored in
    it: the nearest binary32, ties to even, overflowing to an infinity. *)
Definition float_fround (f : float) : float :=
  match Prim2SF f with
  | S754_finite s m e => SF2Prim (binary_round 24 128 s m e)
  | _ => f
  end.

(** *** [parseFloat] on strings: the longest prefix that is a
    StrDecimalLiteral, after leading white space.  A string is held as its
    UTF-8 bytes. *)

(** WhiteSpace and LineTerminator code points of one byte: TAB, LF, VT, FF,
    CR and SP. *)
Definition is_space (c : ascii) : bool :=
  let n := nat_of_ascii c in
  (Nat.leb 9 n && Nat.leb n 13) || Nat.eqb n 32.

(** Of two bytes: U+00A0. *)
Definition is_space2 (c d : ascii) : bool :=
  Nat.eqb (nat_of_ascii c) 194 && Nat.eqb (nat_of_ascii d) 160.

(** Of three bytes: U+1680, U+2000 to U+200A, U+2028, U+2029, U+202F,
    U+205F, U+3000 and U+FEFF. *)
Definition is_space3 (c d e : ascii) : bool :=
  let '(c, d, e) := (nat_of_ascii c, nat_of_ascii d, nat_of_ascii e) in
  (Nat.eqb c 225 && Nat.eqb d 154 && Nat.eqb e 128)
  || (Nat.eqb c 226 && Nat.eqb d 128
      && ((Nat.leb 128 e && Nat.leb e 138) || Nat.eqb e 168 || Nat.eqb e 169 || Nat.eqb e 175))
  || (Nat.eqb c 226 && Nat.eqb d 129 && Nat.eqb e 159)
  || (Nat.eqb c 227 && Nat.eqb d 128 && Nat.eqb e 128)
  || (Nat.eqb c 239 && Nat.eqb d 187 && Nat.eqb e 191).

Definition is_digit (c : ascii) : bool :=
  let n := nat_of_ascii c in Nat.leb 48 n && Nat.leb n 57.

Fixpoint trim_start (s : list ascii) : list ascii :=
  match s with
  | c :: s1 =>
      if is_space c then trim_start s1 else
      match s1 with
      | d :: s2 =>
          if is_space2 c d then trim_start s2 else
          match s2 with
          | e :: s3 => if is_space3 c d e then trim_start s3 else s
          | [] => s
          end
      | [] => s
      end
  | [] => []
  end.

(** Reads digits, extending the decimal numeral [acc]; returns the numeral,
    the number of digits read, and the rest. *)
Fixpoint take_digits (s : list ascii) (acc : Z) (n : nat) : Z * nat * list ascii :=
  match s with
  | c :: s' =>
      if is_digit c
      then take_digits s' (10 * acc + (Z.of_nat (nat_of_ascii c) - 48))%Z (S n)
      else (acc, n, s)
  | [] => (acc, n, [])
  end.

(** ExponentPart, when a complete one follows; otherwise exponent 0. *)
Definition take_exponent (s : list ascii) : Z :=
  match s with
  | c :: s' =>
      if Ascii.eqb c "e" || Ascii.eqb c "E" then
        let '(sg, s'') :=
          match s' with
          | d :: r => if Ascii.eqb d "-" then (true, r)
                      else if Ascii.eqb d "+" then (false, r) else (false, s')
          | [] => (false, s')
          end in
        let '(e, n, _) := take_digits s'' 0%Z 0 in
        if Nat.eqb n 0 then 0%Z else if sg then (- e)%Z else e
      else 0%Z
  | [] => 0%Z
  end.

Fixpoint starts_with (w s : list ascii) : bool :=
  match w, s with
  | [], _ => true
  | a :: w', c :: s' => Ascii.eqb a c && starts_with w' s'
  | _ :: _, [] => false
  end.

Definition apply_sign (neg : bool) (f : float) : float :=
  if neg then (- f)%float else f.

Definition parseFloat_string (s : string) : float :=
  let s := trim_start (list_ascii_of_string s) in
  let '(sg, s) :=
    match s with
    | c :: r => if Ascii.eqb c "-" then (true, r)
                else if Ascii.eqb c "+" then (false, r) else (false, s)
    | [] => (false, s)
    end in
  if starts_with (list_ascii_of_string "Infinity") s then apply_sign sg infinity else
  let '(ip, ni, s) := take_digits s 0%Z 0 in
  let '(m, nf, s) :=
    match s with
    | c :: r => if Ascii.eqb c "." then take_digits r ip 0 else (ip, 0, s)
    | [] => (ip, 0, s)
    end in
  if Nat.eqb (ni + nf) 0 then nan else
  let k := (take_exponent s - Z.of_nat nf)%Z in
  let q := if (0 <=? k)%Z then Qmake (m * 10 ^ k) 1
           else Qmake m (Z.to_pos (10 ^ (- k))) in
  apply_sign sg (round_Q q).

(** [parseFloat(v)] is [parseFloat(ToString(v))].  A Number prints to a
    string that reads back as itself, except that -0 prints as "0"; the
    strings of undefined, null and the booleans have no numeric prefix. *)
Definition float_parseFloat (v : JSValue) : float :=
  match v with
  | VNumber f => if is_zero f then PrimFloat.zero else f
  | VString s => parseFloat_string s
  | VUndefined | VNull | VBoolean _ => nan
  end.

(** Numbers are binary64, and a parameter slot holds any value.  [Math.sin]
    is implementation-approximated in ECMAScript, so the model takes the
    host's function. *)
Definition FloatNum (host_sin : float -> float) : JSNumber := {|
  num := float;
  raw := JSValue;
  lit := round_Q;
  add := PrimFloat.add;
  sub := PrimFloat.sub;
  mul := PrimFloat.mul;
  div := PrimFloat.div;
  neg := PrimFloat.opp;
  Math_sin := host_sin;
  Math_min := float_min;
  Math_fround := float_fround;
  parseFloat := float_parseFloat;
  Object_is := PrimFloat.Leibniz.eqb;
|}.

(** A binary64 value that is NaN or an infinity. *)
Definition nonfinite (f : float) : Prop :=
  Prim2SF f = S754_nan \/ exists sg, Prim2SF f = S754_infinity sg.

(** ** The controls of [App] (App.jsx, lines 179-208)

    [App] keeps the parameters in its state [sim] and renders
    [<PatternSimulator params={sim} />]; a button replaces [sim] through
    [setSim], and the render that follows hands the new object down. *)

Section Controls.
Context {N : JSNumber}.
Local Open Scope js_scope.

(** Pause/Resume: [setSim((s) => ({ ...s, paused: !s.paused }))]. *)
Definition pauseResume (s : Params) : Params :=
  mkParams (negb (paused s)) (count s) (pointSize s) (speed s) (scale s)
    (attraction s) (spawnRadius s) (cRe s) (cIm s) (resetToken s).

(** Reset Particles: [setSim((s) => ({ ...s, resetToken: s.resetToken + 1 }))]. *)
Definition resetParticles (s : Params) : Params :=
  mkParams (paused s) (count s) (pointSize s) (speed s) (scale s)
    (attraction s) (spawnRadius s) (cRe s) (cIm s) (resetToken s + lit 1).

(** The dependencies of the effect when [Particles] is rendered by
    [PatternSimulator] with [sim]. *)
Definition deps_of (sim : Params) : nat * num * num :=
  (count sim, spawnRadius sim, resetToken sim).

(** A frame does its work when the parameters it sees are not paused. *)
Definition running (i : num * Params) : bool := negb (paused i.2).

(** Frames that all see the same parameters. *)
Definition with_params (sim : Params) (deltas : list num) : list (num * Params) :=
  map (fun delta => (delta, sim)) deltas.

(** The deltas of the frames that run, added one after the other to [c]. *)
Definition running_sum (inputs : list (num * Params)) (c : num) : num :=
  fold_left add (map fst (List.filter running inputs)) c.

(** The three coordinates of a vector. *)
Inductive Axis := axis_x | axis_y | axis_z.

Definition coordinate (a : Axis) (v : Vector3) : num :=
  match a with
  | axis_x => x v
  | axis_y => y v
  | axis_z => z v
  end.

(** The position the update number [k] of an orbit writes back before it
    attracts and integrates. *)
Definition remapped (inputs : nat -> num * num * Params) (p : Particle) (k : nat) : Vector3 :=
  let '(t, _, params) := inputs k in
  pos (remap t params (orbit inputs p k)).

End Controls.

(** ** Concrete inputs *)

Section RealInputs.
Local Existing Instance RealNum.
Local Open Scope R_scope.

(** A running set of parameters: the initial [sim] of [App]. *)
Definition sim0 : Params :=
  mkParams false 1500 0.9 24 24 0.02 20 (-0.7) 0.27 0.

(** A stream for [Math.random]: 0.25, 0.75, 0.25, ... *)
Definition alternating (k : nat) : num := if Nat.even k then 0.25 else 0.75.

(** The component after its first render with two particles. *)
Definition two_particles : Component :=
  Particles alternating (Some 2%nat) sim0 Particles_mount.

(** The same parameters with the pause flag set. *)
Definition sim_paused : Params :=
  mkParams true 1500 0.9 24 24 0.02 20 (-0.7) 0.27 0.

(** Three frames while paused, with deltas 1, 0.016 and 5. *)
Definition paused_inputs : list (num * Params) :=
  [(1, sim_paused); (0.016, sim_paused); (5, sim_paused)].

(** The scenario of the specification: one particle at rest at the origin
    with seed 0, [scale = speed = 24], [attraction = 0], [c = -0.7 + 0.27i]. *)
Definition scenario : Params :=
  mkParams false 1 0.9 24 24 0 20 (-0.7) 0.27 0.

Definition at_origin : Particle :=
  mkParticle (mkVector3 0 0 0) (mkVector3 0 0 0) 0.

End RealInputs.

(** [Math.random] returning 0.25, 0.75, 0.25, ... *)
Definition float_alternating (k : nat) : float :=
  if Nat.even k then round_Q 0.25 else round_Q 0.75.

(** The initial [sim] of [App] with two particles and the string "abc" in
    the [cRe] slot. *)
Definition abc_params (host_sin : float -> float) : @Params (FloatNum host_sin) :=
  @mkParams (FloatNum host_sin) false 2 (round_Q 0.9) (round_Q 24) (round_Q 24)
    (round_Q 0.02) (round_Q 20) (VString "abc") (VNumber (round_Q 0.27)) (round_Q 0).

(** The scenario of the specification: one particle at rest at the origin
    with seed 0, [scale = speed = 24], [attraction = 0], [c = -0.7 + 0.27i]. *)
Definition scenario_params (host_sin : float -> float) : @Params (FloatNum host_sin) :=
  @mkParams (FloatNum host_sin) false 1 (round_Q 0.9) (round_Q 24) (round_Q 24)
    (round_Q 0) (round_Q 20) (VNumber (round_Q (-0.7))) (VNumber (round_Q 0.27)) (round_Q 0).

Definition at_rest (host_sin : float -> float) : @Particle (FloatNum host_sin) :=
  @mkParticle (FloatNum host_sin)
    (@mkVector3 (FloatNum host_sin) 0 0 0)%float (@mkVector3 (FloatNum host_sin) 0 0 0)%float 0%float.

(** ** Quantities over the reals, and more concrete inputs *)

Section RealQuantities.
Local Existing Instance RealNum.
Local Open Scope R_scope.





(** Three particles, and the component [App] first renders for them. *)
Definition sim3 : Params :=
  mkParams false 3 0.9 24 24 0.02 20 (-0.7) 0.27 0.

Definition lab3 : Component :=
  PatternSimulator alternating sim3 Particles_mount.

(** Two running frames, and the deltas of three more. *)
Definition two_frames : list (num * Params) := [(0.016, sim3); (0.02, sim3)].

Definition three_deltas : list num := [1; 0.016; 5].

End RealQuantities.

(** A particle whose x is NaN, updates that see the scenario's parameters,
    and parameters with a zero [scale]. *)
Definition lost (host_sin : float -> float) : @Particle (FloatNum host_sin) :=
  @mkParticle (FloatNum host_sin)
    (@mkVector3 (FloatNum host_sin) nan 1 2)%float
    (@mkVector3 (FloatNum host_sin) 0 0 0)%float 7%float.

Definition scenario_updates (host_sin : float -> float) (k : nat)
  : @num (FloatNum host_sin) * @num (FloatNum host_sin) * @Params (FloatNum host_sin) :=
  (round_Q 5, round_Q 0.016, scenario_params host_sin).

Definition zero_scale_params (host_sin : float -> float) : @Params (FloatNum host_sin) :=
  @mkParams (FloatNum host_sin) false 2 (round_Q 0.9) (round_Q 24) (round_Q 0)
    (round_Q 0.02) (round_Q 20) (VNumber (round_Q (-0.7))) (VNumber (round_Q 0.27)) (round_Q 0).



(** A particle in motion, and a particle at the origin whose velocity is the
    smallest positive binary64 number, 2^-1074. *)
Definition drifting (host_sin : float -> float) : @Particle (FloatNum host_sin) :=
  @mkParticle (FloatNum host_sin)
    (@mkVector3 (FloatNum host_sin) 3 4 0)%float
    (@mkVector3 (FloatNum host_sin) 1 2 2)%float 7%float.

Definition creeping (host_sin : float -> float) : @Particle (FloatNum host_sin) :=
  @mkParticle (FloatNum host_sin)
    (@mkVector3 (FloatNum host_sin) 0 0 0)%float
    (@mkVector3 (FloatNum host_sin) 0x0.0000000000001p-1022 0 0)%float 7%float.

(** An update of an orbit that attraction leaves alone in coordinate [a]:
    [attraction] is a zero, and [dt] and the coordinate the update writes
    back are finite. *)
Definition free_step (host_sin : float -> float) (a : Axis)
    (inputs : nat -> @num (FloatNum host_sin) * @num (FloatNum host_sin)
                     * @Params (FloatNum host_sin))
    (p : @Particle (FloatNum host_sin)) (k : nat) : bool :=
  let '(_, dt, params) := inputs k in
  is_zero (attraction params) && is_finite dt
  && is_finite (coordinate a (remapped inputs p k)).

(** And in which the integration step [dt * speed] is finite as well. *)
Definition rest_step (host_sin : float -> float) (a : Axis)
    (inputs : nat -> @num (FloatNum host_sin) * @num (FloatNum host_sin)
                     * @Params (FloatNum host_sin))
    (p : @Particle (FloatNum host_sin)) (k : nat) : bool :=
  let '(_, dt, params) := inputs k in
  free_step host_sin a inputs p k && is_finite (dt * speed params)%float.

(** * Properties *)

(** ** Facts that hold in every model of numbers *)

Section EngineFacts.
Context {N : JSNumber}.

Lemma frame_loop_particles i t dt params ps d mesh :
  (frame_loop i t dt params ps d mesh).1.1 = map (stepped t dt params) ps.
Proof.
  revert i d mesh. induction ps as [|p ps IH]; intros i d mesh; [reflexivity|].
  cbn [frame_loop frame_body].
  match goal with
  | |- context [frame_loop (S i) t dt params ps ?d' ?m'] =>
      specialize (IH (S i) d' m');
      destruct (frame_loop (S i) t dt params ps d' m') as [[ps' d''] m'']
  end.
  cbn [fst snd map] in *. by rewrite IH.
Qed.

Lemma frame_loop_calls i t dt params ps d mesh :
  setMatrixAt_calls (frame_loop i t dt params ps d mesh).2
  = setMatrixAt_calls mesh + length ps.
Proof.
  revert i d mesh. induction ps as [|p ps IH]; intros i d mesh; cbn [frame_loop frame_body].
  - cbn. lia.
  - match goal with
    | |- context [frame_loop (S i) t dt params ps ?d' ?m'] =>
        specialize (IH (S i) d' m');
        destruct (frame_loop (S i) t dt params ps d' m') as [[ps' d''] m'']
    end.
    cbn [fst snd length setMatrixAt setMatrixAt_calls] in *. lia.
Qed.

Lemma frame_loop_buffer i t dt params ps d mesh j :
  instanceMatrix (frame_loop i t dt params ps d mesh).2 !! j
  = if decide (i <= j < i + length ps)
    then transform_of params <$> (map (stepped t dt params) ps !! (j - i))
    else instanceMatrix mesh !! j.
Proof.
  revert i d mesh. induction ps as [|p ps IH]; intros i d mesh; cbn [frame_loop frame_body].
  - cbn [length snd]. case_decide; [lia|done].
  - match goal with
    | |- context [frame_loop (S i) t dt params ps ?d' ?m'] =>
        specialize (IH (S i) d' m');
        destruct (frame_loop (S i) t dt params ps d' m') as [[ps' d''] m'']
    end.
    cbn [fst snd length map] in *. rewrite IH. clear IH.
    cbn [setMatrixAt instanceMatrix updateMatrix matrix position object_scale fields].
    repeat case_decide; try lia.
    + replace (j - i) with (S (j - S i)) by lia. reflexivity.
    + assert (j = i) as -> by lia. rewrite lookup_insert_eq, Nat.sub_diag. reflexivity.
    + rewrite lookup_insert_ne by lia. reflexivity.
Qed.

Lemma useFrame_paused delta params s :
  paused params = true -> Particles_useFrame delta params s = s.
Proof. intros H. unfold Particles_useFrame. by rewrite H. Qed.

Lemma useFrame_clock delta params s :
  paused params = false ->
  clock_current (Particles_useFrame delta params s) = (clock_current s + delta)%js.
Proof.
  intros H. unfold Particles_useFrame. rewrite H.
  by destruct (frame_loop _ _ _ _ _ _ _) as [[ps d] m].
Qed.

Lemma useFrame_pool delta params s :
  paused params = false ->
  particles_current (Particles_useFrame delta params s)
  = map (stepped (clock_current s + delta)%js (Math_min delta (lit 0.033)) params)
        (particles_current s).
Proof.
  intros H. unfold Particles_useFrame. rewrite H.
  pose proof (frame_loop_particles 0 (clock_current s + delta)%js (Math_min delta (lit 0.033))
                params (particles_current s) (dummy s) (meshRef_current s)) as E.
  destruct (frame_loop _ _ _ _ _ _ _) as [[ps d] m]. exact E.
Qed.

Lemma useFrame_writes delta params s :
  paused params = false ->
  setMatrixAt_calls (meshRef_current (Particles_useFrame delta params s))
  = setMatrixAt_calls (meshRef_current s) + length (particles_current s).
Proof.
  intros H. unfold Particles_useFrame. rewrite H.
  pose proof (frame_loop_calls 0 (clock_current s + delta)%js (Math_min delta (lit 0.033))
                params (particles_current s) (dummy s) (meshRef_current s)) as E.
  destruct (frame_loop _ _ _ _ _ _ _) as [[ps d] m]. exact E.
Qed.

(** A running frame leaves in slot [j] the transform of particle [j] as just
    updated, for every particle of the pool, and raises the dirty flag. *)
Lemma useFrame_buffer delta params s j :
  paused params = false ->
  let s' := Particles_useFrame delta params s in
  needsUpdate (meshRef_current s') = true
  /\ (j < length (particles_current s) ->
      instanceMatrix (meshRef_current s') !! j
      = transform_of params <$> (particles_current s' !! j)).
Proof.
  intros H. cbn zeta. rewrite useFrame_pool by done.
  unfold Particles_useFrame. rewrite H.
  pose proof (frame_loop_buffer 0 (clock_current s + delta)%js (Math_min delta (lit 0.033))
                params (particles_current s) (dummy s) (meshRef_current s) j) as E.
  destruct (frame_loop _ _ _ _ _ _ _) as [[ps d] m].
  cbn [snd meshRef_current instanceMatrix needsUpdate] in *.
  split; [done|]. intros Hj. rewrite E, Nat.sub_0_r.
  case_decide; [done|lia].
Qed.

Lemma stepped_identity t dt params ps :
  map identity (map (stepped t dt params) ps) = map identity ps.
Proof. rewrite map_map. reflexivity. Qed.

(** A frame never touches the runtime counters, the array in
    [particles.current], the identities of its elements, or React's record. *)
Lemma useFrame_same_objects delta params s :
  let s' := Particles_useFrame delta params s in
  next_identity s' = next_identity s
  /\ random_calls s' = random_calls s
  /\ particles_array s' = particles_array s
  /\ map identity (particles_current s') = map identity (particles_current s)
  /\ effect_deps s' = effect_deps s.
Proof.
  destruct (paused params) eqn:H; cbn zeta.
  - by rewrite useFrame_paused.
  - rewrite useFrame_pool, stepped_identity by done.
    unfold Particles_useFrame. rewrite H.
    by destruct (frame_loop _ _ _ _ _ _ _) as [[ps d] m].
Qed.

Lemma useFrame_well_formed delta params s :
  well_formed s -> well_formed (Particles_useFrame delta params s).
Proof.
  intros (Ha & Hb & Hc).
  destruct (useFrame_same_objects delta params s) as (E1 & _ & E3 & E4 & _).
  unfold well_formed. rewrite E1, E3, E4. split; [done|]. split; [|done].
  apply Forall_forall. intros o Ho.
  assert (identity o ∈ map identity (particles_current s)) as Hin.
  { rewrite <- E4. apply list_elem_of_fmap. eauto. }
  apply list_elem_of_fmap in Hin as (o' & -> & Ho').
  rewrite Forall_forall in Hb. by apply Hb.
Qed.

(** The update as the composition of its stages, and the fields it leaves. *)
Lemma algorithmStep_unfold (p : Particle) (t dt : num) (params : Params) :
  algorithmStep p t dt params
  = damp (integrate dt params (attract dt params (remap t params p))).
Proof. destruct p as [[px py pz] [ux uy uz] sd]. reflexivity. Qed.

Lemma algorithmStep_fields (p : Particle) (t dt : num) (params : Params) :
  let r := pos (remap t params p) in
  let v := vel (attract dt params (remap t params p)) in
  pos (algorithmStep p t dt params)
  = mkVector3 (x r + x v * (dt * speed params))%js
              (y r + y v * (dt * speed params))%js
              (z r + z v * (dt * speed params))%js
  /\ vel (algorithmStep p t dt params)
     = mkVector3 (x v * lit 0.96)%js (y v * lit 0.96)%js (z v * lit 0.96)%js.
Proof. rewrite algorithmStep_unfold. split; reflexivity. Qed.

(** C1: the update is, in this order, projection and one Julia iteration,
    write-back with the unconditional depth assignment, attraction computed
    from the position just written, integration with the velocity just
    attracted, and damping by the constant 0.96; the resulting fields are
    spelled out. *)
Theorem algorithmStep_stages (p : Particle) (t dt : num) (params : Params) :
  let a := (x (pos p) / scale params)%js in
  let b := (y (pos p) / scale params)%js in
  let r := mkVector3 ((a * a - b * b + parseFloat (cRe params)) * scale params)%js
                     ((lit 2 * a * b + parseFloat (cIm params)) * scale params)%js
                     (Math_sin (t * lit 0.5 + seed p) * scale params * lit 0.3)%js in
  let v := mkVector3 (x (vel p) + - x r * attraction params * dt)%js
                     (y (vel p) + - y r * attraction params * dt)%js
                     (z (vel p) + - z r * attraction params * dt)%js in
  algorithmStep p t dt params
    = damp (integrate dt params (attract dt params (remap t params p)))
  /\ pos (remap t params p) = r
  /\ vel (attract dt params (remap t params p)) = v
  /\ pos (algorithmStep p t dt params)
     = mkVector3 (x r + x v * (dt * speed params))%js
                 (y r + y v * (dt * speed params))%js
                 (z r + z v * (dt * speed params))%js
  /\ vel (algorithmStep p t dt params)
     = mkVector3 (x v * lit 0.96)%js (y v * lit 0.96)%js (z v * lit 0.96)%js
  /\ seed (algorithmStep p t dt params) = seed p.
Proof.
  destruct p as [[px py pz] [ux uy uz] sd], params; cbn zeta.
  repeat split; reflexivity.
Qed.

(** C10: the update never reads the incoming [pos.z]: two particles that
    differ only there are updated to the same particle. *)
Theorem algorithmStep_ignores_z (px py z1 z2 : num) (v : Vector3) (sd t dt : num)
    (params : Params) :
  algorithmStep (mkParticle (mkVector3 px py z1) v sd) t dt params
  = algorithmStep (mkParticle (mkVector3 px py z2) v sd) t dt params.
Proof.
  rewrite !algorithmStep_unfold.
  assert (remap t params (mkParticle (mkVector3 px py z1) v sd)
          = remap t params (mkParticle (mkVector3 px py z2) v sd)) as ->; [|done].
  unfold remap, julia_re, julia_im. reflexivity.
Qed.

(** C2, as the code has it: a running frame sets the clock to the sum of its
    old value and the raw delta, [clock.current += delta], and that sum is
    the [t] of every update of the frame; the clamp is applied to [dt]
    alone, so nothing bounds what one frame adds to the clock. *)
Theorem clock_advances_by_raw_delta (delta : num) (params : Params) (s : Component) :
  paused params = false ->
  let s' := Particles_useFrame delta params s in
  clock_current s' = (clock_current s + delta)%js
  /\ particles_current s'
     = map (stepped (clock_current s + delta)%js (Math_min delta (lit 0.033)) params)
           (particles_current s).
Proof.
  intros H. cbn zeta. by rewrite useFrame_clock, useFrame_pool.
Qed.

(** C4: while [params.paused] is true, frames change nothing: positions,
    velocities, the clock, and the transform buffer with its count of slot
    writes stay as they were, however many frames come and whatever their
    deltas. *)
Theorem paused_frames_are_noops (inputs : list (num * Params)) (s : Component) :
  Forall (fun i => paused i.2 = true) inputs ->
  let s' := frames inputs s in
  s' = s
  /\ particles_current s' = particles_current s
  /\ clock_current s' = clock_current s
  /\ instanceMatrix (meshRef_current s') = instanceMatrix (meshRef_current s)
  /\ setMatrixAt_calls (meshRef_current s') = setMatrixAt_calls (meshRef_current s).
Proof.
  intros H. cbn zeta.
  assert (frames inputs s = s) as ->; [|done].
  induction H as [|[delta params] inputs Hp _ IH]; [reflexivity|].
  cbn [frames]. by rewrite useFrame_paused.
Qed.

(** *** The effect *)

Context (Math_random : nat -> num).

Lemma spawn_loop_spec turns R temp next calls :
  spawn_loop Math_random turns R temp next calls
  = (temp ++ fresh_pool Math_random turns R next calls, next + turns, calls + 4 * turns).
Proof.
  revert temp next calls. induction turns as [|n IH]; intros temp next calls.
  - cbn. by rewrite app_nil_r, !Nat.add_0_r.
  - cbn [spawn_loop]. rewrite IH. unfold fresh_pool.
    rewrite <- app_assoc. cbn [seq map app].
    rewrite <- seq_shift, map_map.
    replace (next + 0) with next by lia.
    replace (calls + 4 * 0) with calls by lia.
    replace (S next + n) with (next + S n) by lia.
    replace (calls + 4 + 4 * n) with (calls + 4 * S n) by lia.
    do 4 f_equal. apply map_ext. intros i. f_equal; lia.
Qed.

Lemma useEffect_spec count params s :
  let s' := Particles_useEffect Math_random count params s in
  particles_array s' = next_identity s
  /\ particles_current s'
     = fresh_pool Math_random count (spawnRadius params) (S (next_identity s)) (random_calls s)
  /\ next_identity s' = S (next_identity s) + count
  /\ random_calls s' = random_calls s + 4 * count
  /\ clock_current s' = clock_current s
  /\ dummy s' = dummy s
  /\ meshRef_current s' = meshRef_current s.
Proof.
  cbn zeta. unfold Particles_useEffect. rewrite spawn_loop_spec. cbn. done.
Qed.

Lemma fresh_pool_length count R next calls :
  length (fresh_pool Math_random count R next calls) = count.
Proof. unfold fresh_pool. by rewrite length_map, length_seq. Qed.

Lemma fresh_pool_identities count R next calls :
  map identity (fresh_pool Math_random count R next calls) = seq next count.
Proof.
  unfold fresh_pool. rewrite map_map. cbn [spawn identity].
  etransitivity; [apply (fmap_add_seq next 0 count)|]. by rewrite Nat.add_0_r.
Qed.

Lemma useEffect_well_formed count params s :
  well_formed (Particles_useEffect Math_random count params s).
Proof.
  destruct (useEffect_spec count params s) as (Ea & Ep & En & _).
  unfold well_formed. rewrite Ea, Ep, En, fresh_pool_identities.
  split; [lia|]. split; [|apply NoDup_seq].
  apply Forall_forall. intros o Ho.
  assert (identity o ∈ seq (S (next_identity s)) count) as Hin.
  { rewrite <- (fresh_pool_identities count (spawnRadius params) _ (random_calls s)).
    apply list_elem_of_fmap. eauto. }
  apply elem_of_seq in Hin. lia.
Qed.

Lemma Particles_well_formed count params s :
  well_formed s -> well_formed (Particles Math_random count params s).
Proof.
  intros H. unfold Particles.
  destruct (match effect_deps s with None => true | Some old => _ end); [|done].
  pose proof (useEffect_well_formed (default 1500 count) params s) as H'.
  exact H'.
Qed.

Lemma mount_well_formed : well_formed Particles_mount.
Proof. repeat split; cbn; [lia|constructor|constructor]. Qed.

(** Between its first render and any later moment the component is well
    formed, the effect has run, and the pool has as many particles as the
    count of the last effect run. *)
Lemma reachable_invariant s :
  reachable Math_random s ->
  well_formed s
  /\ exists c r k, effect_deps s = Some (c, r, k) /\ length (particles_current s) = c.
Proof.
  induction 1 as [count params|count params s _ (Hwf & c & r & k & Hd & Hl)
                 |delta params s _ (Hwf & c & r & k & Hd & Hl)].
  - split; [apply Particles_well_formed, mount_well_formed|].
    unfold Particles. cbn [effect_deps Particles_mount].
    destruct (useEffect_spec (default 1500 count) params Particles_mount) as (_ & Ep & _).
    cbn [particles_current effect_deps]. rewrite Ep, fresh_pool_length. eauto.
  - split; [by apply Particles_well_formed|].
    unfold Particles. rewrite Hd.
    destruct (negb _); [|eauto].
    destruct (useEffect_spec (default 1500 count) params s) as (_ & Ep & _).
    cbn [particles_current effect_deps]. rewrite Ep, fresh_pool_length. eauto.
  - split; [by apply useFrame_well_formed|].
    destruct (useFrame_same_objects delta params s) as (_ & _ & _ & Ei & Ed).
    exists c, r, k. rewrite Ed. split; [done|].
    rewrite <- Hl, <- (length_map identity), Ei. apply length_map.
Qed.

(** *** When the pool is rebuilt *)

Section Rebuild.
(** [Object.is] tells whether two numbers are the same value. *)
Hypothesis Object_is_eq : forall a b : num, Object_is a b = true <-> a = b.

Lemma same_deps_true c r k c' r' k' :
  same_deps (c, r, k) (c', r', k') = true <-> c = c' /\ r = r' /\ k = k'.
Proof.
  unfold same_deps. rewrite !andb_true_iff, Nat.eqb_eq, !Object_is_eq. tauto.
Qed.

Lemma same_deps_false c r k c' r' k' :
  same_deps (c, r, k) (c', r', k') = false <-> c <> c' \/ r <> r' \/ k <> k'.
Proof.
  split.
  - unfold same_deps. rewrite !andb_false_iff, Nat.eqb_neq.
    intros [[H|H]|H]; [by left| right; left | right; right];
      intros ->; by rewrite (proj2 (Object_is_eq _ _) eq_refl) in H.
  - intros H. apply not_true_iff_false. rewrite same_deps_true. tauto.
Qed.

(** C3: a render replaces the array in [particles.current] exactly when the
    count, the spawn radius or the reset token is not what it was at the last
    effect run.  When one is, the pool is the freshly spawned one and none of
    its objects is an old one; when none is, the component is left as it
    was, whatever the other parameters are now.  Frames keep the array and
    the identity of every particle in it. *)
Theorem pool_rebuilt_iff_deps_changed (s : Component) (c : nat) (r k : num)
    (count : option nat) (params : Params) :
  well_formed s ->
  effect_deps s = Some (c, r, k) ->
  let n := default 1500 count in
  let s' := Particles Math_random count params s in
  let changed := c <> n \/ r <> spawnRadius params \/ k <> resetToken params in
  (particles_array s' <> particles_array s <-> changed)
  /\ (changed ->
        particles_array s' = next_identity s
        /\ particles_current s'
           = fresh_pool Math_random n (spawnRadius params)
               (S (next_identity s)) (random_calls s)
        /\ Forall (fun o => identity o ∉ map identity (particles_current s))
             (particles_current s')
        /\ effect_deps s' = Some (n, spawnRadius params, resetToken params))
  /\ (~ changed -> s' = s)
  /\ (forall delta q,
        let s'' := Particles_useFrame delta q s in
        particles_array s'' = particles_array s
        /\ map identity (particles_current s'') = map identity (particles_current s)
        /\ effect_deps s'' = effect_deps s).
Proof.
  intros (Ha & Hb & Hc) Hd. cbn zeta.
  set (n := default 1500 count).
  assert (forall delta q,
    particles_array (Particles_useFrame delta q s) = particles_array s
    /\ map identity (particles_current (Particles_useFrame delta q s))
       = map identity (particles_current s)
    /\ effect_deps (Particles_useFrame delta q s) = effect_deps s) as Hframes.
  { intros delta q. pose proof (useFrame_same_objects delta q s) as H. cbn zeta in H. tauto. }
  unfold Particles. rewrite Hd in Hframes |- *. fold n.
  destruct (same_deps (c, r, k) (n, spawnRadius params, resetToken params)) eqn:E; cbn [negb].
  - apply same_deps_true in E as (-> & -> & ->).
    split; [|split; [|split]]; [tauto|tauto|done|exact Hframes].
  - apply same_deps_false in E.
    destruct (useEffect_spec n params s) as (Ea & Ep & En & _).
    cbn [particles_array particles_current effect_deps].
    rewrite Ea, Ep.
    split; [|split; [|split]]; [|intros _|tauto|exact Hframes].
    + split; [done|]. intros _. lia.
    + split; [done|]. split; [done|]. split; [|done].
      apply Forall_forall. intros o Ho Hold.
      assert (identity o ∈ seq (S (next_identity s)) n) as Hin.
      { rewrite <- (fresh_pool_identities n (spawnRadius params) _ (random_calls s)).
        apply list_elem_of_fmap. eauto. }
      apply elem_of_seq in Hin.
      apply list_elem_of_fmap in Hold as (o' & Hid & Ho').
      rewrite Forall_forall in Hb. specialize (Hb o' Ho'). lia.
Qed.

End Rebuild.

End EngineFacts.

(** ** The update on the runtime *)

Section InterpreterFacts.
Context {N : JSNumber} (Math_random : nat -> num).

Lemma bind_assoc {A B C : Type} (m : JS A) (f : A -> JS B) (g : B -> JS C) (w : Runtime) :
  ((m ≫= f) ≫= g) w = (m ≫= fun a => f a ≫= g) w.
Proof. unfold mbind, JS_bind. by destruct (m w) as [[a w']|]. Qed.

Lemma get_at {A : Type} (p : nat) (field : Particle -> A) (o : Particle)
    (h : gmap nat Particle) (r : nat) (k : A -> JS unit) :
  (get p field ≫= k) (mkRuntime (<[p := o]> h) r) = k (field o) (mkRuntime (<[p := o]> h) r).
Proof. unfold mbind, JS_bind, get. cbn [heap]. by rewrite lookup_insert_eq. Qed.

Lemma assign_at (p : nat) (set : Particle -> Particle) (o : Particle)
    (h : gmap nat Particle) (r : nat) :
  assign p set (mkRuntime (<[p := o]> h) r) = Some (tt, mkRuntime (<[p := set o]> h) r).
Proof.
  unfold assign. cbn [heap random_drawn]. by rewrite lookup_insert_eq, insert_insert_eq.
Qed.

Lemma assign_then_at (p : nat) (set : Particle -> Particle) (o : Particle)
    (h : gmap nat Particle) (r : nat) (k : JS unit) :
  (assign p set ≫= fun _ => k) (mkRuntime (<[p := o]> h) r)
  = k (mkRuntime (<[p := set o]> h) r).
Proof. unfold mbind, JS_bind. by rewrite assign_at. Qed.

(** One statement executed on a runtime whose object at [p] is known. *)
Ltac execute :=
  first [rewrite bind_assoc | rewrite get_at | rewrite assign_then_at | rewrite assign_at];
  cbn beta zeta;
  cbn [set_pos set_vel set_x set_y set_z pos vel seed x y z].

(** Run on any runtime, the update throws when [p] refers to no object, and
    otherwise leaves the runtime as it was but for the object [p] refers to,
    which has become [algorithmStep] of what it was. *)
Lemma algorithmStep_run_spec (p : nat) (t dt : num) (params : Params) (w : Runtime) :
  algorithmStep_run p t dt params w
  = (fun o => (tt, mkRuntime (<[p := algorithmStep o t dt params]> (heap w)) (random_drawn w)))
      <$> (heap w !! p).
Proof.
  destruct w as [h r]. cbn [heap random_drawn].
  destruct (h !! p) as [o|] eqn:E.
  - rewrite <- (insert_id h p o E) at 1. cbn [fmap option_fmap option_map].
    rewrite <- (insert_insert_eq h p o (algorithmStep o t dt params)).
    destruct o as [[px py pz] [ux uy uz] sd].
    unfold algorithmStep_run, addScaledVector_run, multiplyScalar_run. cbn iota.
    repeat execute.
    rewrite !insert_insert_eq. reflexivity.
  - unfold algorithmStep_run, mbind, JS_bind, get. cbn [heap]. by rewrite E.
Qed.

(** C7: the update is deterministic, with no hidden state and no randomness.
    Executed statement by statement on the runtime, it reads and writes the
    one object it is given and nothing else: what it leaves in that object
    is [algorithmStep] of the object's fields, the clock, the delta and the
    parameters.  So two invocations on equal particles, in runtimes that
    differ in everything else (the other objects, the references, the state
    of [Math.random]), both complete and leave equal particles; every other
    object is as it was; and no random number has been drawn, whereas a call
    of [Math.random] would have moved the count of draws. *)
Theorem update_deterministic (p : nat) (t dt : num) (params : Params) :
  (forall w : Runtime,
     algorithmStep_run p t dt params w
     = (fun o => (tt, mkRuntime (<[p := algorithmStep o t dt params]> (heap w))
                        (random_drawn w)))
         <$> (heap w !! p))
  /\ (forall (w1 w2 : Runtime) (p2 : nat) (o : Particle),
        heap w1 !! p = Some o -> heap w2 !! p2 = Some o ->
        exists w1' w2',
          algorithmStep_run p t dt params w1 = Some (tt, w1')
          /\ algorithmStep_run p2 t dt params w2 = Some (tt, w2')
          /\ heap w1' !! p = Some (algorithmStep o t dt params)
          /\ heap w2' !! p2 = Some (algorithmStep o t dt params)
          /\ (forall q, q <> p -> heap w1' !! q = heap w1 !! q)
          /\ (forall q, q <> p2 -> heap w2' !! q = heap w2 !! q)
          /\ random_drawn w1' = random_drawn w1
          /\ random_drawn w2' = random_drawn w2)
  /\ (forall w : Runtime,
        exists r w', Math_random_call Math_random w = Some (r, w')
                     /\ random_drawn w' = S (random_drawn w)).
Proof.
  split; [apply algorithmStep_run_spec|]. split.
  - intros w1 w2 p2 o H1 H2.
    exists (mkRuntime (<[p := algorithmStep o t dt params]> (heap w1)) (random_drawn w1)),
           (mkRuntime (<[p2 := algorithmStep o t dt params]> (heap w2)) (random_drawn w2)).
    rewrite !algorithmStep_run_spec, H1, H2. cbn [heap random_drawn].
    rewrite !lookup_insert_eq.
    repeat split; try done; intros q Hq; by rewrite lookup_insert_ne.
  - intros w. by eexists _, _.
Qed.

End InterpreterFacts.

(** ** The engine over the reals *)

Section RealFacts.
Local Existing Instance RealNum.
Local Open Scope R_scope.

Lemma Real_Object_is (a b : R) : Object_is a b = true <-> a = b.
Proof. cbn. destruct (Req_dec_T a b); split; congruence. Qed.

Lemma lit_0033 : lit 0.033 = 0.033.
Proof. cbn. unfold Q2R. cbn. lra. Qed.

(** C2, refuted as stated: one running frame with delta 1 moves the clock by
    1, which is more than the clamped delta 0.033. *)
Lemma clock_advances_by_raw_delta_example :
  let s := Particles_mount in
  let s' := Particles_useFrame 1 sim0 s in
  clock_current s' - clock_current s = 1
  /\ Math_min 1 (lit 0.033) = 0.033
  /\ Math_min 1 (lit 0.033) < clock_current s' - clock_current s.
Proof.
  cbn zeta. rewrite useFrame_clock by reflexivity. rewrite lit_0033.
  assert (Math_min 1 0.033 = 0.033) as E.
  { cbn. apply Rmin_right. lra. }
  rewrite E. cbn. lra.
Qed.

Lemma alternating_range k : 0 <= alternating k < 1.
Proof. unfold alternating. destruct (Nat.even k); lra. Qed.

Lemma two_particles_well_formed : well_formed two_particles.
Proof. apply Particles_well_formed, mount_well_formed. Qed.

Lemma pool_rebuilt_iff_deps_changed_witness :
  well_formed two_particles
  /\ effect_deps two_particles = Some (2%nat, 20, 0)
  /\ particles_array (Particles alternating (Some 3%nat) sim0 two_particles)
     = next_identity two_particles
  /\ Particles alternating (Some 2%nat)
       (mkParams true 2 1.5 30 10 0.05 20 0.1 0.2 0) two_particles
     = two_particles.
Proof.
  pose proof (pool_rebuilt_iff_deps_changed alternating Real_Object_is two_particles
                2%nat 20 0 (Some 3%nat) sim0 two_particles_well_formed eq_refl) as H3.
  pose proof (pool_rebuilt_iff_deps_changed alternating Real_Object_is two_particles
                2%nat 20 0 (Some 2%nat) (mkParams true 2 1.5 30 10 0.05 20 0.1 0.2 0)
                two_particles_well_formed eq_refl) as H2.
  cbn zeta in H3, H2.
  split; [exact two_particles_well_formed|]. split; [reflexivity|]. split.
  - apply H3. left. discriminate.
  - apply H2. cbn. intros [H|[H|H]]; by apply H.
Defined.

Lemma paused_frames_are_noops_witness :
  let s' := frames paused_inputs two_particles in
  s' = two_particles
  /\ particles_current s' = particles_current two_particles
  /\ clock_current s' = clock_current two_particles
  /\ instanceMatrix (meshRef_current s') = instanceMatrix (meshRef_current two_particles)
  /\ setMatrixAt_calls (meshRef_current s') = setMatrixAt_calls (meshRef_current two_particles).
Proof.
  apply (paused_frames_are_noops paused_inputs two_particles).
  repeat constructor.
Defined.

(** *** The pool after a rebuild *)






(** The scenario of the specification: the plane point (0, 0) maps to
    (-0.7, 0.27), and the particle lands on (-16.8, 6.48, sin(t/2) * 7.2)
    with its velocity still zero. *)
Lemma scenario_reals (t : num) :
  let p' := algorithmStep at_origin t (1 / 30) scenario in
  julia_re at_origin scenario = -0.7
  /\ julia_im at_origin scenario = 0.27
  /\ x (pos p') = -16.8 /\ y (pos p') = 6.48
  /\ z (pos p') = sin (t * 0.5) * 7.2
  /\ x (vel p') = 0 /\ y (vel p') = 0 /\ z (vel p') = 0.
Proof.
  cbn zeta.
  destruct (algorithmStep_fields at_origin t (1 / 30) scenario) as (-> & ->).
  cbn. unfold Q2R. cbn. rewrite Rplus_0_r.
  repeat split; lra.
Qed.

End RealFacts.

(** ** The engine over binary64 *)

Section FloatFacts.
(** The host's [Math.sin], whatever it is. *)
Context (host_sin : float -> float).
Local Hint Extern 0 JSNumber => exact (FloatNum host_sin) : typeclass_instances.

Lemma Prim2SF_nan : Prim2SF nan = S754_nan.
Proof. reflexivity. Qed.

Lemma SFeqb_irrefl_nan (f : spec_float) : SFeqb f f = false -> f = S754_nan.
Proof.
  destruct f as [s|s| |s m e]; cbn; try done.
  - by destruct s.
  - change (PosDef.Pos.compare_cont Eq m m) with (Pos.compare m m).
    rewrite Z.compare_refl, Pos.compare_refl. by destruct s.
Qed.

Lemma is_nan_true (f : float) : is_nan f = true -> f = nan.
Proof.
  unfold is_nan. rewrite FloatAxioms.eqb_spec. intros H.
  apply Prim2SF_inj. rewrite Prim2SF_nan. apply SFeqb_irrefl_nan.
  by destruct (SFeqb _ _).
Qed.

Lemma add_nan_r (f : float) : (f + nan)%float = nan.
Proof.
  apply Prim2SF_inj. rewrite add_spec, Prim2SF_nan.
  by destruct (Prim2SF f) as [[]|[]| |[]].
Qed.

Lemma add_nan_l (f : float) : (nan + f)%float = nan.
Proof.
  apply Prim2SF_inj. rewrite add_spec, Prim2SF_nan.
  by destruct (Prim2SF f) as [[]|[]| |[]].
Qed.

Lemma mul_nan_l (f : float) : (nan * f)%float = nan.
Proof.
  apply Prim2SF_inj. rewrite mul_spec, Prim2SF_nan.
  by destruct (Prim2SF f) as [[]|[]| |[]].
Qed.

(** [Object.is] on binary64 is equality: NaN is NaN, and -0 is not +0. *)
Lemma Float_Object_is (a b : float) : Object_is a b = true <-> a = b.
Proof. apply FloatAxioms.Leibniz.eqb_spec. Qed.

Lemma Float_Object_is_examples :
  Object_is nan nan = true /\ Object_is 0%float (- 0)%float = false.
Proof. split; reflexivity. Qed.











(** *** Damping *)

Lemma finite_spec (f : float) :
  is_finite f = true ->
  (exists s, Prim2SF f = S754_zero s) \/ (exists s m e, Prim2SF f = S754_finite s m e).
Proof.
  unfold is_finite, is_nan, is_infinity. rewrite !FloatAxioms.eqb_spec, abs_spec.
  change (Prim2SF infinity) with (S754_infinity false).
  destruct (Prim2SF f) as [s|s| |s m e]; intros H; eauto 6; cbn in H; try done.
  all: by rewrite orb_true_r in H.
Qed.

Lemma zero_spec (f : float) : is_zero f = true -> exists b, Prim2SF f = S754_zero b.
Proof.
  unfold is_zero. rewrite FloatAxioms.eqb_spec.
  change (Prim2SF PrimFloat.zero) with (S754_zero false).
  destruct (Prim2SF f) as [b|[]| |[] m e]; cbn; try done. eauto.
Qed.

Lemma is_zero_spec (f : float) (b : bool) : Prim2SF f = S754_zero b -> is_zero f = true.
Proof. intros H. unfold is_zero. by rewrite FloatAxioms.eqb_spec, H. Qed.

Lemma not_zero_spec (f : float) : is_zero f = false -> forall b, Prim2SF f <> S754_zero b.
Proof. intros H b E. by rewrite (is_zero_spec f b E) in H. Qed.

(** Rounding works on the magnitude: the sign is carried over. *)
Lemma SFabs_round (s : bool) (m e : Z) (l : location) :
  SFabs (binary_round_aux prec emax s m e l) = binary_round_aux prec emax false m e l.
Proof.
  unfold binary_round_aux.
  destruct (shr_fexp prec emax m e l) as [mrs e'].
  destruct (shr_fexp prec emax _ e' loc_Exact) as [mrs' e''].
  destruct (shr_m mrs'); [reflexivity| |reflexivity].
  by destruct (_ <=? _)%Z.
Qed.

Lemma abs_mul (a c : float) : abs (a * c) = (abs a * abs c)%float.
Proof.
  apply Prim2SF_inj. rewrite abs_spec, !mul_spec, !abs_spec.
  destruct (Prim2SF a) as [sa|sa| |sa ma ea], (Prim2SF c) as [sc|sc| |sc mc ec];
    cbn [SFmul SFabs]; try reflexivity.
  apply SFabs_round.
Qed.

(** [-r * a * dt] is a zero when [a] is a zero and [r] and [dt] are finite. *)
Lemma no_pull (r a dt : float) :
  is_zero a = true -> is_finite r = true -> is_finite dt = true ->
  exists b, Prim2SF (- r * a * dt) = S754_zero b.
Proof.
  intros Ha Hr Hdt. apply zero_spec in Ha as [sa Ha].
  rewrite !mul_spec, opp_spec, Ha.
  destruct (finite_spec r Hr) as [[sr ->]|(sr & mr & er & ->)],
           (finite_spec dt Hdt) as [[sd ->]|(sd & md & ed & ->)]; cbn; eauto.
Qed.

(** Adding a zero changes at most the sign of a zero. *)
Lemma add_zero (v z : float) (b : bool) :
  Prim2SF z = S754_zero b ->
  abs (v + z) = abs v
  /\ (is_zero v = false -> (v + z)%float = v)
  /\ (is_zero v = true -> is_zero (v + z) = true).
Proof.
  intros Hz. split; [|split].
  - apply Prim2SF_inj. rewrite !abs_spec, add_spec, Hz.
    destruct (Prim2SF v) as [[]|[]| |[] m e], b; reflexivity.
  - intros Hv. apply Prim2SF_inj. rewrite add_spec, Hz.
    pose proof (not_zero_spec v Hv) as Hn.
    destruct (Prim2SF v) as [s|[]| |[] m e]; try reflexivity. by destruct (Hn s).
  - intros Hv. apply zero_spec in Hv as [s Hv].
    apply (is_zero_spec _ (if Bool.eqb s b then s else false)).
    rewrite add_spec, Hz, Hv. by destruct s, b.
Qed.

Lemma mul_zero_l (z c : float) (b : bool) :
  Prim2SF z = S754_zero b -> is_finite c = true -> is_zero (z * c) = true.
Proof.
  intros Hz Hc.
  destruct (finite_spec c Hc) as [[sc E]|(sc & mc & ec & E)];
    apply (is_zero_spec _ (xorb b sc)); by rewrite mul_spec, Hz, E.
Qed.

(** What attraction and damping make of a velocity coordinate [v] when
    [attraction] is a zero: [v * 0.96], but for the sign of a zero. *)
Lemma damped_component (v r a dt : float) :
  is_zero a = true -> is_finite r = true -> is_finite dt = true ->
  let v' := ((v + - r * a * dt) * round_Q 0.96)%float in
  abs v' = (abs v * round_Q 0.96)%float
  /\ (is_zero v = false -> v' = (v * round_Q 0.96)%float)
  /\ (is_zero v = true -> is_zero v' = true).
Proof.
  intros Ha Hr Hdt. cbn zeta.
  destruct (no_pull r a dt Ha Hr Hdt) as [b Hz].
  destruct (add_zero v _ b Hz) as (E1 & E2 & E3).
  split; [|split].
  - rewrite abs_mul, E1. reflexivity.
  - intros Hv. by rewrite E2.
  - intros Hv. specialize (E3 Hv). apply zero_spec in E3 as [s E3].
    by apply (mul_zero_l _ _ s).
Qed.

Lemma free_component (a : Axis) (p : Particle) (t dt : num) (params : Params) :
  is_zero (attraction params) = true -> is_finite dt = true ->
  is_finite (coordinate a (pos (remap t params p))) = true ->
  let v := coordinate a (vel p) in
  let v' := coordinate a (vel (algorithmStep p t dt params)) in
  abs v' = (abs v * lit 0.96)%js
  /\ (is_zero v = false -> v' = (v * lit 0.96)%js)
  /\ (is_zero v = true -> is_zero v' = true).
Proof.
  intros Ha Hdt Hr. cbn zeta.
  destruct (algorithmStep_fields p t dt params) as [_ ->].
  destruct a; cbn [coordinate x y z attract vel pos] in *; by apply damped_component.
Qed.

Lemma free_step_spec (a : Axis) (inputs : nat -> num * num * Params) (p : Particle) (k : nat) :
  free_step host_sin a inputs p k = true ->
  let v := coordinate a (vel (orbit inputs p k)) in
  let v' := coordinate a (vel (orbit inputs p (S k))) in
  abs v' = (abs v * lit 0.96)%js
  /\ (is_zero v = false -> v' = (v * lit 0.96)%js)
  /\ (is_zero v = true -> is_zero v' = true).
Proof.
  unfold free_step, remapped. cbn [orbit].
  destruct (inputs k) as [[t dt] params]. intros H.
  apply andb_true_iff in H as [H Hr]. apply andb_true_iff in H as [Ha Hdt].
  by apply free_component.
Qed.

(** C8, as binary64 has it: through every update in which [attraction] is a
    zero and [dt] and the coordinate written back are finite, a velocity
    coordinate is multiplied by 0.96, the product rounded to binary64 (a
    zero stays a zero); so after [n] such updates its absolute value is the
    initial one multiplied [n] times by 0.96, each product rounded,
    whatever the clock, the deltas and the other parameters. *)
Theorem damping_without_attraction (inputs : nat -> num * num * Params) (p : Particle)
    (a : Axis) (n : nat) :
  (forall k, k < n -> free_step host_sin a inputs p k = true) ->
  let v k := coordinate a (vel (orbit inputs p k)) in
  abs (v n) = Nat.iter n (fun u => (u * lit 0.96)%js) (abs (v 0))
  /\ (forall k, k < n ->
        abs (v (S k)) = (abs (v k) * lit 0.96)%js
        /\ (is_zero (v k) = false -> v (S k) = (v k * lit 0.96)%js)
        /\ (is_zero (v k) = true -> is_zero (v (S k)) = true)).
Proof.
  intros H. cbn zeta. split.
  - induction n as [|n IH]; [reflexivity|].
    rewrite Nat.iter_succ, <- IH by (intros k Hk; apply H; lia).
    apply free_step_spec, H. lia.
  - intros k Hk. by apply free_step_spec, H.
Qed.

(** What [parseFloat] makes of values that are not numeric. *)
Lemma parseFloat_non_numeric :
  parseFloat VUndefined = nan
  /\ parseFloat VNull = nan
  /\ (forall b, parseFloat (VBoolean b) = nan)
  /\ parseFloat (VString "abc") = nan
  /\ parseFloat (VString "") = nan
  /\ parseFloat (VNumber nan) = nan.
Proof. repeat split. Qed.

(** And of numeric ones: the number, or the longest numeric prefix. *)
Lemma parseFloat_numeric :
  parseFloat (VString "-0.7") = lit (-0.7)
  /\ parseFloat (VString "  0.27px") = lit 0.27
  /\ parseFloat (VString "1e3") = lit 1000
  /\ parseFloat (VNumber (lit 0.27)) = lit 0.27.
Proof. repeat split; vm_compute; reflexivity. Qed.

(** C9, as the code has it, for a slot holding undefined, null, a boolean, a
    Number or a String: the update does no validation.  It reads [cRe] and
    [cIm] through [parseFloat], which makes NaN of a value that is not
    numeric (undefined, null, a boolean, a string such as "abc" or "");
    when [parseFloat] yields NaN for [cRe] (for [cIm]), the particle comes
    out with NaN as the x (the y) coordinate of both its position and its
    velocity. *)
Theorem non_numeric_constant_yields_NaN (p : Particle) (t dt : num) (params : Params) :
  let p' := algorithmStep p t dt params in
  Forall (fun v => is_nan (parseFloat v) = true)
    [VUndefined; VNull; VBoolean true; VBoolean false; VString "abc"; VString ""]
  /\ (is_nan (parseFloat (cRe params)) = true ->
       is_nan (x (pos p')) = true /\ is_nan (x (vel p')) = true)
  /\ (is_nan (parseFloat (cIm params)) = true ->
       is_nan (y (pos p')) = true /\ is_nan (y (vel p')) = true).
Proof.
  cbn zeta. split; [repeat constructor|].
  destruct (algorithmStep_fields p t dt params) as (-> & ->).
  cbn [attract remap vel pos x y z]. unfold julia_re, julia_im.
  split; intros H; apply is_nan_true in H; rewrite H;
    cbn [add sub mul div neg FloatNum];
    rewrite add_nan_r, mul_nan_l; change (- nan)%float with nan;
    rewrite !mul_nan_l, add_nan_r, !mul_nan_l, add_nan_l; done.
Qed.

End FloatFacts.

Lemma clock_advances_by_raw_delta_witness :
  float_min 1 (round_Q 0.033) = round_Q 0.033
  /\ forall host_sin : float -> float,
       let s := @PatternSimulator (FloatNum host_sin) float_alternating
                  (scenario_params host_sin) Particles_mount in
       let s' := @Particles_useFrame (FloatNum host_sin) 1%float (scenario_params host_sin) s in
       clock_current s' = (clock_current s + 1)%float
       /\ particles_current s'
          = map (@stepped (FloatNum host_sin) (clock_current s + 1)%float
                   (float_min 1 (round_Q 0.033)) (scenario_params host_sin))
                (particles_current s).
Proof.
  split; [reflexivity|]. intros host_sin.
  apply (@clock_advances_by_raw_delta (FloatNum host_sin) 1%float (scenario_params host_sin)).
  reflexivity.
Defined.




Lemma damping_without_attraction_witness :
  is_zero (round_Q 0) = true
  /\ forall host_sin : float -> float,
       let v k := @coordinate (FloatNum host_sin) axis_x
                    (vel (@orbit (FloatNum host_sin) (scenario_updates host_sin)
                            (drifting host_sin) k)) in
       abs (v 3)
       = Nat.iter 3 (fun u => @mul (FloatNum host_sin) u (@lit (FloatNum host_sin) 0.96))
           (abs (v 0))
       /\ (forall k, k < 3 ->
             abs (v (S k)) = @mul (FloatNum host_sin) (abs (v k)) (@lit (FloatNum host_sin) 0.96)
             /\ (is_zero (v k) = false ->
                 v (S k) = @mul (FloatNum host_sin) (v k) (@lit (FloatNum host_sin) 0.96))
             /\ (is_zero (v k) = true -> is_zero (v (S k)) = true)).
Proof.
  split; [reflexivity|]. intros host_sin.
  apply (damping_without_attraction host_sin (scenario_updates host_sin) (drifting host_sin)
           axis_x 3).
  intros k Hk. destruct k as [|[|[|k]]]; [vm_compute; reflexivity ..|lia].
Defined.

(** C8, refuted as stated, with [attraction = 0] throughout.  A velocity of
    2^-1074 is not reduced by an update: its product with 0.96 rounds back
    to 2^-1074, so the magnitude is not 0.96 times the previous one and
    does not tend to 0.  And the particle that starts at (3, 4, 0) with
    velocity (1, 2, 2) is carried off by the iteration: at the 28th update
    its position overflows, and its velocity, finite until then, is NaN. *)
Lemma damping_stalls_and_breaks_down :
  (0x0.0000000000001p-1022 * round_Q 0.96)%float = 0x0.0000000000001p-1022%float
  /\ forall host_sin : float -> float,
       let slow := @orbit (FloatNum host_sin) (scenario_updates host_sin) (creeping host_sin) in
       let fast := @orbit (FloatNum host_sin) (scenario_updates host_sin) (drifting host_sin) in
       is_zero (attraction (scenario_params host_sin)) = true
       /\ x (vel (slow 1)) = x (vel (slow 0))
       /\ x (vel (slow 50)) = x (vel (slow 0))
       /\ is_zero (x (vel (slow 0))) = false
       /\ is_finite (x (vel (fast 27))) && is_finite (y (vel (fast 27))) = true
       /\ is_nan (x (vel (fast 28))) && is_nan (y (vel (fast 28))) = true.
Proof.
  split; [reflexivity|]. intros host_sin. repeat split; vm_compute; reflexivity.
Qed.

(** C9, refuted as stated: with the string "abc" in the [cRe] slot nothing
    is rejected.  The component renders, builds its two particles, and a
    frame leaves both of them with NaN in position and velocity. *)
Lemma non_numeric_cRe_reaches_the_pool :
  float_parseFloat (VString "abc") = nan
  /\ forall host_sin : float -> float,
       let s := @PatternSimulator (FloatNum host_sin) float_alternating
                  (abc_params host_sin) Particles_mount in
       let s' := @Particles_useFrame (FloatNum host_sin) (round_Q 0.016)
                   (abc_params host_sin) s in
       length (particles_current s') = 2
       /\ forallb (fun o : @ParticleObject (FloatNum host_sin) =>
                      is_nan (x (pos (fields o))) && is_nan (x (vel (fields o))))
            (particles_current s') = true.
Proof. split; [reflexivity|]. intros host_sin. split; vm_compute; reflexivity. Qed.

Lemma non_numeric_constant_yields_NaN_witness :
  is_nan (float_parseFloat (VString "abc")) = true
  /\ forall host_sin : float -> float,
       let p' := @algorithmStep (FloatNum host_sin) (at_rest host_sin)
                   (round_Q 5) (round_Q 0.033) (abc_params host_sin) in
       is_nan (x (pos p')) = true /\ is_nan (x (vel p')) = true.
Proof.
  split; [reflexivity|]. intros host_sin.
  apply (non_numeric_constant_yields_NaN host_sin (at_rest host_sin)
           (round_Q 5) (round_Q 0.033) (abc_params host_sin)).
  reflexivity.
Defined.

(** The literals of the source as binary64 values. *)
Lemma literals_binary64 :
  round_Q 0.033 = 0x1.0e5604189374cp-5%float
  /\ round_Q 0.96 = 0x1.eb851eb851eb8p-1%float
  /\ round_Q 0.3 = 0x1.3333333333333p-2%float
  /\ round_Q 0.5 = 0x1p-1%float
  /\ round_Q 1000 = 0x1.f4p+9%float.
Proof. repeat split. Qed.

(** The scenario in binary64: the position comes out within 1e-12 of
    (-16.8, 6.48), and the velocity stays zero in x and y. *)
Lemma scenario_binary64 (host_sin : float -> float) :
  let p' := @algorithmStep (FloatNum host_sin) (at_rest host_sin)
              (round_Q 5) (round_Q (1 # 30)) (scenario_params host_sin) in
  (abs (x (pos p') - round_Q (-16.8)) <? round_Q (1 # 1000000000000))%float = true
  /\ (abs (y (pos p') - round_Q 6.48) <? round_Q (1 # 1000000000000))%float = true
  /\ x (vel p') = 0%float /\ y (vel p') = 0%float.
Proof. repeat split; vm_compute; reflexivity. Qed.

(** A delta of one second is clamped to 0.033 in binary64 as well. *)
Lemma clamp_binary64 :
  float_min 1 (round_Q 0.033) = round_Q 0.033
  /\ float_min (round_Q 0.016) (round_Q 0.033) = round_Q 0.016
  /\ float_min nan (round_Q 0.033) = nan.
Proof. repeat split. Qed.

(** * Further properties of the component and the controls *)

(** ** In every model of numbers *)

Section EngineExtras.
Context {N : JSNumber} (Math_random : nat -> num).

Lemma algorithmStep_seed (p : Particle) (t dt : num) (params : Params) :
  seed (algorithmStep p t dt params) = seed p.
Proof. by rewrite algorithmStep_unfold. Qed.

Lemma copy_id (v : Vector3) : copy v = v.
Proof. by destruct v. Qed.

Lemma useFrame_seeds delta params s :
  map (fun o => seed (fields o)) (particles_current (Particles_useFrame delta params s))
  = map (fun o => seed (fields o)) (particles_current s).
Proof.
  destruct (paused params) eqn:H; [by rewrite useFrame_paused|].
  rewrite useFrame_pool, map_map by done.
  apply map_ext. intros o. apply algorithmStep_seed.
Qed.

(** X1: frames never create, drop, reorder or re-seed particles: after any
    sequence of frames the pool is the same array with the same objects in
    the same order, each with the seed it was created with, and neither the
    allocation cursor, nor the count of [Math.random] calls, nor React's
    record of the dependencies has moved. *)
Theorem frames_keep_seeds_and_identities (inputs : list (num * Params)) (s : Component) :
  let s' := frames inputs s in
  map identity (particles_current s') = map identity (particles_current s)
  /\ map (fun o => seed (fields o)) (particles_current s')
     = map (fun o => seed (fields o)) (particles_current s)
  /\ length (particles_current s') = length (particles_current s)
  /\ particles_array s' = particles_array s
  /\ next_identity s' = next_identity s
  /\ random_calls s' = random_calls s
  /\ effect_deps s' = effect_deps s.
Proof.
  cbn zeta. revert s. induction inputs as [|[delta params] inputs IH]; intros s; [done|].
  cbn [frames]. destruct (IH (Particles_useFrame delta params s)) as (I1 & I2 & I3 & I4 & I5 & I6 & I7).
  destruct (useFrame_same_objects delta params s) as (E1 & E2 & E3 & E4 & E5).
  rewrite I1, I2, I3, I4, I5, I6, I7, useFrame_seeds, E1, E2, E3, E4, E5.
  repeat split; try done.
  by rewrite <- (length_map identity), E4, length_map.
Qed.

Lemma frames_app (a b : list (num * Params)) (s : Component) :
  frames (a ++ b) s = frames b (frames a s).
Proof.
  revert s. induction a as [|[delta params] a IH]; intros s; [done|].
  cbn [app frames]. apply IH.
Qed.

(** X2: frames compose, and a paused frame is as good as no frame wherever
    it falls: running a sequence of frames gives the same component as
    running only those of its frames that are not paused, and a sequence run
    in two parts gives what it gives in one. *)
Theorem paused_frames_can_be_dropped (inputs : list (num * Params)) (s : Component) :
  frames (List.filter running inputs) s = frames inputs s
  /\ (forall a b, inputs = a ++ b -> frames inputs s = frames b (frames a s)).
Proof.
  split; [|intros a b ->; apply frames_app].
  revert s. induction inputs as [|[delta params] inputs IH]; intros s; [done|].
  cbn [List.filter frames]. unfold running at 1. cbn [snd].
  destruct (paused params) eqn:H; cbn [negb frames].
  - by rewrite IH, useFrame_paused.
  - apply IH.
Qed.

Lemma frame_loop_dummy i t dt params ps d mesh :
  (frame_loop i t dt params ps d mesh).1.2
  = match last ps with
    | None => d
    | Some p =>
        let v := pos (algorithmStep (fields p) t dt params) in
        mkObject3D v (setScalar (pointSize params)) (compose v (setScalar (pointSize params)))
    end.
Proof.
  revert i d mesh. induction ps as [|p ps IH]; intros i d mesh; [done|].
  cbn [frame_loop frame_body].
  match goal with
  | |- context [frame_loop (S i) t dt params ps ?d' ?m'] =>
      specialize (IH (S i) d' m');
      destruct (frame_loop (S i) t dt params ps d' m') as [[ps' d''] m'']
  end.
  cbn [fst snd] in *. rewrite IH. clear IH.
  destruct ps as [|q ps].
  - cbn [last updateMatrix position object_scale matrix fields]. by rewrite copy_id.
  - rewrite last_cons_cons. destruct (last (q :: ps)) eqn:E; [done|].
    by apply last_None in E.
Qed.

(** X3: what a running frame hands to the renderer.  Slot [j] of the
    transform buffer holds, for every particle [j] of the pool, the position
    that particle has after its update together with the uniform scale
    [params.pointSize], each number converted to float32 as the buffer keeps
    it; slots past the pool are left as they were; the dirty flag is raised;
    [setMatrixAt] has been called once per particle; and [dummy] is left at
    the last particle's transform, in full precision. *)
Theorem running_frame_fills_buffer (delta : num) (params : Params) (s : Component) :
  paused params = false ->
  let s' := Particles_useFrame delta params s in
  let n := length (particles_current s) in
  let transform o := compose (pos (fields o)) (setScalar (pointSize params)) in
  let float32 v := mkVector3 (Math_fround (x v)) (Math_fround (y v)) (Math_fround (z v)) in
  let stored o :=
    compose (float32 (pos (fields o))) (float32 (setScalar (pointSize params))) in
  (forall j, j < n ->
     instanceMatrix (meshRef_current s') !! j = stored <$> (particles_current s' !! j))
  /\ (forall j, n <= j ->
     instanceMatrix (meshRef_current s') !! j = instanceMatrix (meshRef_current s) !! j)
  /\ needsUpdate (meshRef_current s') = true
  /\ setMatrixAt_calls (meshRef_current s') = setMatrixAt_calls (meshRef_current s) + n
  /\ match last (particles_current s') with
     | None => dummy s' = dummy s
     | Some o => matrix (dummy s') = transform o /\ position (dummy s') = pos (fields o)
     end.
Proof.
  intros H. cbn zeta.
  assert (forall j,
    instanceMatrix (meshRef_current (Particles_useFrame delta params s)) !! j
    = if decide (0 <= j < 0 + length (particles_current s))
      then transform_of params
             <$> (particles_current (Particles_useFrame delta params s) !! (j - 0))
      else instanceMatrix (meshRef_current s) !! j) as Hbuf.
  { intros j. rewrite useFrame_pool by done. unfold Particles_useFrame. rewrite H.
    pose proof (frame_loop_buffer 0 (clock_current s + delta)%js (Math_min delta (lit 0.033))
                  params (particles_current s) (dummy s) (meshRef_current s) j) as E.
    by destruct (frame_loop _ _ _ _ _ _ _) as [[ps d] m]. }
  split; [|split; [|split; [|split]]].
  - intros j Hj. rewrite Hbuf, Nat.sub_0_r. case_decide; [|lia].
    destruct (particles_current _ !! j) as [o|]; [|done].
    cbn. unfold transform_of. by rewrite copy_id.
  - intros j Hj. rewrite Hbuf. case_decide; [lia|done].
  - by destruct (useFrame_buffer delta params s 0 H) as [-> _].
  - by apply useFrame_writes.
  - rewrite useFrame_pool by done.
    unfold Particles_useFrame. rewrite H.
    pose proof (frame_loop_dummy 0 (clock_current s + delta)%js (Math_min delta (lit 0.033))
                  params (particles_current s) (dummy s) (meshRef_current s)) as E.
    destruct (frame_loop _ _ _ _ _ _ _) as [[ps d] m].
    cbn [fst snd dummy] in *. rewrite E.
    change (map ?f ?l) with (f <$> l). rewrite fmap_last.
    destruct (last (particles_current s)) as [o|]; [|done].
    cbn. done.
Qed.

Lemma frames_effect_deps (inputs : list (num * Params)) (s : Component) :
  effect_deps (frames inputs s) = effect_deps s.
Proof.
  revert s. induction inputs as [|[delta params] inputs IH]; intros s; [done|].
  cbn [frames]. rewrite IH.
  by destruct (useFrame_same_objects delta params s) as (_ & _ & _ & _ & ->).
Qed.

Lemma frames_all_paused (inputs : list (num * Params)) (s : Component) :
  Forall (fun i => paused i.2 = true) inputs -> frames inputs s = s.
Proof.
  induction 1 as [|[delta params] inputs Hp _ IH]; [done|].
  cbn [frames]. by rewrite useFrame_paused.
Qed.

Lemma same_deps_refl (d : nat * num * num) :
  (forall a : num, Object_is a a = true) -> same_deps d d = true.
Proof.
  intros Hrefl. destruct d as [[c r] k]. unfold same_deps.
  by rewrite Nat.eqb_refl, !Hrefl.
Qed.

Lemma Particles_in_sync (count : option nat) (params : Params) (s : Component) :
  effect_deps s = Some (default 1500 count, spawnRadius params, resetToken params) ->
  (forall a : num, Object_is a a = true) ->
  Particles Math_random count params s = s.
Proof.
  intros Hd Hrefl. unfold Particles. rewrite Hd.
  by rewrite same_deps_refl.
Qed.

Lemma Particles_settles (count : option nat) (params : Params) (s : Component) :
  (forall a : num, Object_is a a = true) ->
  exists d, effect_deps (Particles Math_random count params s) = Some d
            /\ same_deps d (default 1500 count, spawnRadius params, resetToken params) = true.
Proof.
  intros Hrefl. unfold Particles.
  destruct (effect_deps s) as [d|] eqn:Hd.
  - destruct (same_deps d _) eqn:E; cbn [negb].
    + exists d. by rewrite Hd.
    + eexists. split; [reflexivity|]. by apply same_deps_refl.
  - eexists. split; [reflexivity|]. by apply same_deps_refl.
Qed.

(** X4: rendering again with the props of the last render changes nothing,
    also when frames have run in between: the effect does not run a second
    time, so the pool, the clock and the buffer are exactly what the frames
    left.  ([Object.is] finds every number the same as itself.) *)
Theorem rerender_same_props_is_noop (count : option nat) (params : Params)
    (inputs : list (num * Params)) (s : Component) :
  (forall a : num, Object_is a a = true) ->
  let s1 := frames inputs (Particles Math_random count params s) in
  Particles Math_random count params s1 = s1.
Proof.
  intros Hrefl. cbn zeta.
  destruct (Particles_settles count params s Hrefl) as (d & Hd & Hs).
  unfold Particles at 1. by rewrite frames_effect_deps, Hd, Hs.
Qed.

Lemma fresh_pool_lookup count R next calls i :
  i < count ->
  fresh_pool Math_random count R next calls !! i
  = Some (spawn Math_random R (next + i) (calls + 4 * i)).
Proof.
  intros Hi. unfold fresh_pool.
  change (map ?f ?l) with (f <$> l). rewrite list_lookup_fmap.
  by rewrite lookup_seq_lt.
Qed.

(** X5: what a rebuild costs and what it leaves alone.  The effect takes one
    identity for the new array and the next [count] for the particles, and
    exactly [4 * count] values from [Math.random]: particle [i] is made from
    draws [4i .. 4i+3] after those already used, in the order x, y, z, seed.
    The effect touches neither the clock, nor [dummy], nor the mesh, nor
    React's record: a rebuild does not restart the clock.  No render moves
    the clock or [dummy]; a render keeps the mesh when [count] is what it
    was at the last render, and leaves a new mesh, no slot written, when it
    is not. *)
Theorem rebuild_accounting (count : nat) (params : Params) (s : Component) :
  let s' := Particles_useEffect Math_random count params s in
  let c := random_calls s in
  let R := spawnRadius params in
  let coordinate k := ((Math_random k - lit 0.5) * R * lit 2)%js in
  particles_array s' = next_identity s
  /\ next_identity s' = S (next_identity s) + count
  /\ random_calls s' = c + 4 * count
  /\ clock_current s' = clock_current s
  /\ dummy s' = dummy s
  /\ meshRef_current s' = meshRef_current s
  /\ effect_deps s' = effect_deps s
  /\ length (particles_current s') = count
  /\ (forall i, i < count ->
        particles_current s' !! i
        = Some (mkObject (S (next_identity s) + i)
                  (mkParticle
                     (mkVector3 (coordinate (c + 4 * i)) (coordinate (c + 4 * i + 1))
                                (coordinate (c + 4 * i + 2)))
                     (mkVector3 (lit 0) (lit 0) (lit 0))
                     (Math_random (c + 4 * i + 3) * lit 1000)%js)))
  /\ (forall props,
        let s'' := Particles Math_random props params s in
        clock_current s'' = clock_current s
        /\ dummy s'' = dummy s
        /\ (forall c r k, effect_deps s = Some (c, r, k) ->
              meshRef_current s''
              = if decide (c = default 1500 props) then meshRef_current s
                else new_InstancedMesh)).
Proof.
  cbn zeta.
  destruct (useEffect_spec Math_random count params s) as (E1 & E2 & E3 & E4 & E5 & E6 & E7).
  rewrite E1, E2, E3, E4, E5, E6, E7, fresh_pool_length.
  repeat split; try done.
  - unfold Particles_useEffect.
    by destruct (spawn_loop _ _ _ _ _ _) as [[temp next] calls].
  - intros i Hi. by rewrite fresh_pool_lookup.
  - unfold Particles. destruct (match effect_deps s with None => true | Some _ => _ end); [|done].
    by destruct (useEffect_spec Math_random (default 1500 props) params s) as (_ & _ & _ & _ & -> & _).
  - unfold Particles. destruct (match effect_deps s with None => true | Some _ => _ end); [|done].
    by destruct (useEffect_spec Math_random (default 1500 props) params s) as (_ & _ & _ & _ & _ & -> & _).
  - intros c r k Hd. unfold Particles. rewrite Hd.
    destruct (same_deps (c, r, k) _) eqn:E; cbn [negb meshRef_current].
    + unfold same_deps in E. apply andb_true_iff in E as [E _].
      apply andb_true_iff in E as [E _]. apply Nat.eqb_eq in E.
      by rewrite decide_True.
    + case_decide as Hc.
      * by rewrite (proj2 (Nat.eqb_eq _ _) Hc).
      * by rewrite (proj2 (Nat.eqb_neq _ _) Hc).
Qed.

Lemma Particles_layout (count : option nat) (params : Params) (s : Component) :
  map identity (particles_current s) = seq (S (particles_array s)) (length (particles_current s)) ->
  let s' := Particles Math_random count params s in
  map identity (particles_current s')
  = seq (S (particles_array s')) (length (particles_current s')).
Proof.
  intros H. cbn zeta. unfold Particles.
  destruct (match effect_deps s with None => true | Some old => _ end); [|done].
  destruct (useEffect_spec Math_random (default 1500 count) params s) as (E1 & E2 & _).
  cbn [particles_current particles_array].
  by rewrite E1, E2, fresh_pool_identities, fresh_pool_length.
Qed.

(** X6: what holds of the component from its first render on, through any
    renders and frames: the effect has run; the pool has exactly as many
    particles as the count the effect last ran with; the array and the
    particles of the pool were allocated together, so their identities are
    consecutive, distinct, and below the allocation cursor. *)
Theorem reachable_pool_invariant (s : Component) :
  reachable Math_random s ->
  (exists c r k, effect_deps s = Some (c, r, k) /\ length (particles_current s) = c)
  /\ map identity (particles_current s)
     = seq (S (particles_array s)) (length (particles_current s))
  /\ NoDup (map identity (particles_current s))
  /\ S (particles_array s) + length (particles_current s) <= next_identity s.
Proof.
  intros Hr. destruct (reachable_invariant Math_random s Hr) as ((Ha & Hb & Hc) & Hd).
  assert (map identity (particles_current s)
          = seq (S (particles_array s)) (length (particles_current s))) as Hl.
  { clear -Hr. induction Hr as [count params|count params s _ IH|delta params s _ IH].
    - by apply Particles_layout.
    - by apply Particles_layout.
    - destruct (useFrame_same_objects delta params s) as (_ & _ & E3 & E4 & _).
      rewrite E4, E3, IH. f_equal.
      by rewrite <- (length_map identity (particles_current (Particles_useFrame _ _ _))),
           E4, length_map. }
  split; [done|]. split; [done|]. split; [done|].
  destruct (particles_current s) as [|o ps] eqn:E; [cbn; lia|].
  rewrite Forall_forall in Hb.
  assert (S (particles_array s) + length ps ∈ seq (S (particles_array s)) (length (o :: ps))) as Hin.
  { apply elem_of_seq. cbn [length]. lia. }
  rewrite <- Hl in Hin. apply list_elem_of_fmap in Hin as (o' & Hid & Ho').
  specialize (Hb o' Ho'). cbn [length]. lia.
Qed.

(** X7: the plane and the depth do not feed each other.  What the update
    leaves in the x and y of position and velocity is fixed by the incoming
    x and y of position and velocity, the delta and the parameters: the
    clock, the seed and the z of position and velocity play no part.  What
    it leaves in the z of position and velocity is fixed by the clock, the
    seed, the incoming z of the velocity, the delta and [scale],
    [attraction] and [speed]: the plane coordinates and the constants [cRe]
    and [cIm] play no part. *)
Theorem plane_and_depth_are_decoupled (px py ux uy dt : num) (params : Params) :
  (forall (z1 z2 w1 w2 sd1 sd2 t1 t2 : num),
     let p1 := algorithmStep (mkParticle (mkVector3 px py z1) (mkVector3 ux uy w1) sd1)
                 t1 dt params in
     let p2 := algorithmStep (mkParticle (mkVector3 px py z2) (mkVector3 ux uy w2) sd2)
                 t2 dt params in
     x (pos p1) = x (pos p2) /\ y (pos p1) = y (pos p2)
     /\ x (vel p1) = x (vel p2) /\ y (vel p1) = y (vel p2))
  /\ (forall (qx qy vx vy pz w sd t : num) (re im : raw),
       let other := mkParams (paused params) (count params) (pointSize params)
                      (speed params) (scale params) (attraction params)
                      (spawnRadius params) re im (resetToken params) in
       let p1 := algorithmStep (mkParticle (mkVector3 px py pz) (mkVector3 ux uy w) sd)
                   t dt params in
       let p2 := algorithmStep (mkParticle (mkVector3 qx qy pz) (mkVector3 vx vy w) sd)
                   t dt other in
       z (pos p1) = z (pos p2) /\ z (vel p1) = z (vel p2)).
Proof.
  split; intros;
    repeat match goal with v := _ |- _ => subst v end;
    rewrite !algorithmStep_unfold; repeat split; reflexivity.
Qed.

(** X9: the clock is the running sum of the raw deltas of the frames that
    ran.  After any sequence of frames it is what results from adding to
    its old value, one after the other and in their order, the deltas of the
    frames that were not paused, each as it came and however large; paused
    frames contribute nothing. *)
Theorem clock_is_sum_of_running_deltas (inputs : list (num * Params)) (s : Component) :
  clock_current (frames inputs s) = running_sum inputs (clock_current s)
  /\ (forall delta params,
        clock_current (frames (inputs ++ [(delta, params)]) s)
        = if paused params then clock_current (frames inputs s)
          else (clock_current (frames inputs s) + delta)%js).
Proof.
  split.
  - unfold running_sum. revert s.
    induction inputs as [|[delta params] inputs IH]; intros s; [done|].
    cbn [frames List.filter]. rewrite IH. unfold running at 2. cbn [snd].
    destruct (paused params) eqn:H; cbn [negb map fold_left fst].
    + by rewrite useFrame_paused.
    + by rewrite useFrame_clock.
  - intros delta params. rewrite frames_app. cbn [frames].
    destruct (paused params) eqn:H.
    + by rewrite useFrame_paused.
    + by rewrite useFrame_clock.
Qed.

Lemma pauseResume_involutive (sim : Params) : pauseResume (pauseResume sim) = sim.
Proof. destruct sim as [b]. unfold pauseResume. cbn. by rewrite negb_involutive. Qed.

(** X8: pausing loses nothing.  With the simulation running and the
    component rendered from [sim]: pressing Pause and rendering leaves the
    component as it is, every frame that follows leaves it as it is, and
    pressing Resume gives back the very parameters and the very component
    there were before the pause. *)
Theorem pause_resume_round_trip (sim : Params) (c : Component) (deltas : list num) :
  (forall a : num, Object_is a a = true) ->
  effect_deps c = Some (deps_of sim) ->
  paused sim = false ->
  let paused_sim := pauseResume sim in
  let c1 := PatternSimulator Math_random paused_sim c in
  let c2 := frames (with_params paused_sim deltas) c1 in
  let c3 := PatternSimulator Math_random (pauseResume paused_sim) c2 in
  paused paused_sim = true
  /\ c1 = c /\ c2 = c /\ c3 = c
  /\ pauseResume paused_sim = sim.
Proof.
  intros Hrefl Hd Hp. cbn zeta.
  assert (PatternSimulator Math_random (pauseResume sim) c = c) as E1.
  { unfold PatternSimulator. by apply Particles_in_sync. }
  assert (frames (with_params (pauseResume sim) deltas) c = c) as E2.
  { apply frames_all_paused. unfold with_params.
    apply Forall_forall. intros i Hi.
    apply list_elem_of_fmap in Hi as (d & -> & _). cbn. by rewrite Hp. }
  rewrite E1, E2, pauseResume_involutive.
  split; [cbn; by rewrite Hp|]. split; [done|]. split; [done|]. split; [|done].
  unfold PatternSimulator. by apply Particles_in_sync.
Qed.

End EngineExtras.

(** ** Over the reals *)

Section RealExtras.
Local Existing Instance RealNum.
Local Open Scope R_scope.

Lemma lab3_reachable : reachable alternating lab3.
Proof. apply reach_first. Qed.

Lemma lab3_deps : effect_deps lab3 = Some (deps_of sim3).
Proof. reflexivity. Qed.

Lemma Real_Object_is_refl (a : num) : Object_is a a = true.
Proof. by apply Real_Object_is. Qed.

Lemma running_frame_fills_buffer_witness :
  needsUpdate (meshRef_current (Particles_useFrame 0.016 sim3 lab3)) = true
  /\ setMatrixAt_calls (meshRef_current (Particles_useFrame 0.016 sim3 lab3))
     = (setMatrixAt_calls (meshRef_current lab3) + length (particles_current lab3))%nat.
Proof.
  destruct (running_frame_fills_buffer (N:=RealNum) 0.016 sim3 lab3 eq_refl)
    as (_ & _ & H1 & H2 & _).
  split; [exact H1|exact H2].
Defined.

Lemma rerender_same_props_is_noop_witness :
  let s1 := frames two_frames lab3 in
  Particles alternating (Some 3%nat) sim3 s1 = s1.
Proof.
  apply (rerender_same_props_is_noop alternating (Some 3%nat) sim3
           two_frames Particles_mount Real_Object_is_refl).
Defined.

Lemma reachable_pool_invariant_witness :
  map identity (particles_current lab3)
  = seq (S (particles_array lab3)) (length (particles_current lab3))
  /\ NoDup (map identity (particles_current lab3)).
Proof.
  destruct (reachable_pool_invariant alternating lab3 lab3_reachable) as (_ & H1 & H2 & _).
  split; [exact H1|exact H2].
Defined.

Lemma pause_resume_round_trip_witness :
  let paused_sim := pauseResume sim3 in
  let c1 := PatternSimulator alternating paused_sim lab3 in
  let c2 := frames (with_params paused_sim three_deltas) c1 in
  let c3 := PatternSimulator alternating (pauseResume paused_sim) c2 in
  paused paused_sim = true
  /\ c1 = lab3 /\ c2 = lab3 /\ c3 = lab3
  /\ pauseResume paused_sim = sim3.
Proof.
  apply (pause_resume_round_trip alternating sim3 lab3 three_deltas
           Real_Object_is_refl lab3_deps eq_refl).
Defined.

(** *** The Reset button *)

Lemma next_token_differs (k : R) : k + lit 1 <> k.
Proof. cbn. unfold Q2R. cbn. lra. Qed.

(** X11: Reset Particles always restarts the pool and nothing else.  The
    click adds one to the reset token and changes no other parameter; the
    render that follows replaces the array in [particles.current] by a fresh
    pool of [sim.count] new objects spawned with the unchanged radius, and
    leaves the clock where it was. *)
Theorem reset_button_rebuilds (rnd : nat -> num) (sim : Params) (c : Component) :
  well_formed c ->
  effect_deps c = Some (deps_of sim) ->
  let sim' := resetParticles sim in
  let c' := PatternSimulator rnd sim' c in
  resetToken sim' = resetToken sim + 1
  /\ (paused sim', count sim', pointSize sim', speed sim', scale sim',
      attraction sim', spawnRadius sim', cRe sim', cIm sim')
     = (paused sim, count sim, pointSize sim, speed sim, scale sim,
        attraction sim, spawnRadius sim, cRe sim, cIm sim)
  /\ particles_array c' = next_identity c
  /\ particles_current c'
     = fresh_pool rnd (count sim) (spawnRadius sim) (S (next_identity c)) (random_calls c)
  /\ length (particles_current c') = count sim
  /\ Forall (fun o => identity o ∉ map identity (particles_current c)) (particles_current c')
  /\ clock_current c' = clock_current c
  /\ effect_deps c' = Some (deps_of sim').
Proof.
  intros (Ha & Hb & Hc) Hd. cbn zeta.
  split; [cbn; unfold Q2R; cbn; lra|]. split; [reflexivity|].
  unfold PatternSimulator, Particles. rewrite Hd.
  change (default 1500%nat (Some (count (resetParticles sim))))
    with (count (resetParticles sim)).
  assert (same_deps (deps_of sim)
            (count (resetParticles sim), spawnRadius (resetParticles sim),
             resetToken (resetParticles sim)) = false) as ->.
  { unfold deps_of. apply (same_deps_false rnd Real_Object_is). right. right.
    cbn [resetParticles resetToken]. intros H. symmetry in H.
    by apply next_token_differs in H. }
  cbn [negb].
  destruct (useEffect_spec rnd (count (resetParticles sim)) (resetParticles sim) c)
    as (E1 & E2 & _ & _ & E5 & _).
  cbn [particles_array particles_current clock_current effect_deps].
  rewrite E1, E2, E5, fresh_pool_length.
  repeat split; try done.
  apply Forall_forall. intros o Ho Hold.
  assert (identity o ∈ seq (S (next_identity c)) (count sim)) as Hin.
  { rewrite <- (fresh_pool_identities rnd (count sim) (spawnRadius sim) _ (random_calls c)).
    apply list_elem_of_fmap. eauto. }
  apply elem_of_seq in Hin.
  apply list_elem_of_fmap in Hold as (o' & Hid & Ho').
  rewrite Forall_forall in Hb. specialize (Hb o' Ho'). lia.
Qed.

Lemma lab3_well_formed : well_formed lab3.
Proof. apply Particles_well_formed, mount_well_formed. Qed.

Lemma reset_button_rebuilds_witness :
  let c' := PatternSimulator alternating (resetParticles sim3) lab3 in
  particles_array c' = next_identity lab3
  /\ length (particles_current c') = 3%nat
  /\ clock_current c' = clock_current lab3.
Proof.
  destruct (reset_button_rebuilds alternating sim3 lab3 lab3_well_formed lab3_deps)
    as (_ & _ & H1 & _ & H2 & _ & H3 & _).
  split; [exact H1|]. split; [exact H2|exact H3].
Defined.

(** *** Reset while paused *)

Lemma rebuilt_on_new_token (rnd : nat -> num) (sim sim' : Params) (c : Component) :
  well_formed c ->
  effect_deps c = Some (deps_of sim) ->
  resetToken sim' <> resetToken sim ->
  count sim' = count sim ->
  let c' := PatternSimulator rnd sim' c in
  particles_array c' = next_identity c
  /\ particles_current c'
     = fresh_pool rnd (count sim') (spawnRadius sim') (S (next_identity c)) (random_calls c)
  /\ clock_current c' = clock_current c
  /\ effect_deps c' = Some (deps_of sim')
  /\ meshRef_current c' = meshRef_current c.
Proof.
  intros Hwf Hd Hk Hc. cbn zeta.
  unfold PatternSimulator, Particles. rewrite Hd.
  change (default 1500%nat (Some (count sim'))) with (count sim').
  assert (same_deps (deps_of sim) (count sim', spawnRadius sim', resetToken sim') = false) as ->.
  { unfold deps_of. apply (same_deps_false rnd Real_Object_is). right. right. congruence. }
  cbn [negb].
  destruct (useEffect_spec rnd (count sim') sim' c) as (E1 & E2 & _ & _ & E5 & _).
  cbn [particles_array particles_current clock_current effect_deps meshRef_current].
  rewrite E1, E2, E5. unfold deps_of.
  by rewrite (proj2 (Nat.eqb_eq (count sim) (count sim')) (eq_sym Hc)).
Qed.

(** X12: Reset Particles pressed while paused shows nothing until Resume.
    The render after the click replaces the pool by fresh particles, but the
    frames that follow are paused and write no slot, so the transform buffer
    the renderer reads is still, to the last entry, the one of the old
    particles, and the clock stands still. *)
Theorem reset_while_paused_is_not_displayed (rnd : nat -> num) (sim : Params)
    (c : Component) (deltas : list num) :
  well_formed c ->
  effect_deps c = Some (deps_of sim) ->
  paused sim = true ->
  let sim' := resetParticles sim in
  let c' := frames (with_params sim' deltas) (PatternSimulator rnd sim' c) in
  particles_array c' = next_identity c
  /\ particles_current c'
     = fresh_pool rnd (count sim) (spawnRadius sim) (S (next_identity c)) (random_calls c)
  /\ meshRef_current c' = meshRef_current c
  /\ clock_current c' = clock_current c.
Proof.
  intros Hwf Hd Hp. cbn zeta.
  rewrite frames_all_paused.
  - destruct (rebuilt_on_new_token rnd sim (resetParticles sim) c Hwf Hd)
      as (E1 & E2 & E3 & _ & E5).
    { cbn [resetParticles resetToken]. apply next_token_differs. }
    { reflexivity. }
    cbn zeta in E1, E2, E3, E5. by rewrite E1, E2, E3, E5.
  - unfold with_params. apply Forall_forall. intros i Hi.
    apply list_elem_of_fmap in Hi as (d & -> & _). exact Hp.
Qed.

Lemma reset_while_paused_is_not_displayed_witness :
  let sim := pauseResume sim3 in
  let c' := frames (with_params (resetParticles sim) three_deltas)
              (PatternSimulator alternating (resetParticles sim) lab3) in
  particles_array c' = next_identity lab3
  /\ meshRef_current c' = meshRef_current lab3.
Proof.
  destruct (reset_while_paused_is_not_displayed alternating (pauseResume sim3) lab3
              three_deltas lab3_well_formed eq_refl eq_refl) as (H1 & _ & H2 & _).
  split; [exact H1|exact H2].
Defined.

(** *** The Randomize button *)






(** *** Seeds *)

Lemma spawn_seed_range (rnd : nat -> num) (r : num) (next calls : nat) :
  (forall k, 0 <= rnd k < 1) -> 0 <= seed (fields (spawn rnd r next calls)) < 1000.
Proof.
  intros Hrnd. cbn. pose proof (Hrnd (calls + 3)%nat). unfold Q2R. cbn. lra.
Qed.

(** X15: a particle's seed lies in [0, 1000) for as long as the component
    lives: in every state reached from the first render through renders and
    frames, provided [Math.random] returns values in [0, 1). *)
Theorem seeds_stay_in_range (rnd : nat -> num) (s : Component) :
  (forall k, 0 <= rnd k < 1) ->
  reachable rnd s ->
  Forall (fun o => 0 <= seed (fields o) < 1000) (particles_current s).
Proof.
  intros Hrnd Hr.
  assert (forall count params s0,
    Forall (fun o => 0 <= seed (fields o) < 1000) (particles_current s0) ->
    Forall (fun o => 0 <= seed (fields o) < 1000)
      (particles_current (Particles rnd count params s0))) as Hrender.
  { intros count params s0 H0. unfold Particles.
    destruct (match effect_deps s0 with None => true | Some old => _ end); [|done].
    destruct (useEffect_spec rnd (default 1500%nat count) params s0) as (_ & E2 & _).
    cbn [particles_current]. rewrite E2.
    apply Forall_forall. intros o Ho. unfold fresh_pool in Ho.
    apply list_elem_of_fmap in Ho as (i & -> & _). by apply spawn_seed_range. }
  induction Hr as [count params|count params s _ IH|delta params s _ IH].
  - apply Hrender. constructor.
  - by apply Hrender.
  - apply Forall_forall. intros o Ho.
    assert (seed (fields o) ∈ map (fun o => seed (fields o)) (particles_current s)) as Hin.
    { rewrite <- (useFrame_seeds delta params s). apply list_elem_of_fmap. eauto. }
    apply list_elem_of_fmap in Hin as (o' & -> & Ho').
    rewrite Forall_forall in IH. by apply IH.
Qed.

Lemma seeds_stay_in_range_witness :
  Forall (fun o => 0 <= seed (fields o) < 1000)
    (particles_current (frames two_frames lab3)).
Proof.
  apply (seeds_stay_in_range alternating (frames two_frames lab3) alternating_range).
  unfold two_frames. cbn [frames]. do 2 apply reach_frame. apply lab3_reachable.
Defined.

End RealExtras.

(** ** Over binary64 *)

Section FloatExtras.
Context (host_sin : float -> float).
Local Hint Extern 0 JSNumber => exact (FloatNum host_sin) : typeclass_instances.

Lemma is_nan_nan : is_nan nan = true.
Proof. reflexivity. Qed.

Lemma mul_nan_r (f : float) : (f * nan)%float = nan.
Proof.
  apply Prim2SF_inj. rewrite mul_spec, Prim2SF_nan.
  by destruct (Prim2SF f) as [[]|[]| |[]].
Qed.

Lemma sub_nan_l (f : float) : (nan - f)%float = nan.
Proof.
  apply Prim2SF_inj. rewrite sub_spec, Prim2SF_nan.
  by destruct (Prim2SF f) as [[]|[]| |[]].
Qed.

Lemma sub_nan_r (f : float) : (f - nan)%float = nan.
Proof.
  apply Prim2SF_inj. rewrite sub_spec, Prim2SF_nan.
  by destruct (Prim2SF f) as [[]|[]| |[]].
Qed.

Lemma div_nan_l (f : float) : (nan / f)%float = nan.
Proof.
  apply Prim2SF_inj. rewrite div_spec, Prim2SF_nan.
  by destruct (Prim2SF f) as [[]|[]| |[]].
Qed.

(** Once the remapped coordinate is NaN, so are the coordinate and the
    velocity the update leaves. *)
Lemma nan_coordinate (v a dt sp c : float) :
  (nan + (v + - nan * a * dt) * sp)%float = nan
  /\ ((v + - nan * a * dt) * c)%float = nan.
Proof.
  change (- nan)%float with nan.
  by rewrite !mul_nan_l, add_nan_r, !mul_nan_l, add_nan_l.
Qed.

Lemma remapped_nan_spreads (p : Particle) (t dt : num) (params : Params) :
  let p' := algorithmStep p t dt params in
  (x (pos (remap t params p)) = nan -> x (pos p') = nan /\ x (vel p') = nan)
  /\ (y (pos (remap t params p)) = nan -> y (pos p') = nan /\ y (vel p') = nan).
Proof.
  cbn zeta. destruct (algorithmStep_fields p t dt params) as (-> & ->).
  cbn [attract vel pos x y z]. split; intros ->; apply nan_coordinate.
Qed.

Lemma nan_position_one_step (p : Particle) (t dt : num) (params : Params) :
  is_nan (x (pos p)) || is_nan (y (pos p)) = true ->
  let p' := algorithmStep p t dt params in
  x (pos p') = nan /\ y (pos p') = nan /\ x (vel p') = nan /\ y (vel p') = nan.
Proof.
  intros H. cbn zeta.
  destruct (remapped_nan_spreads p t dt params) as (Hx & Hy). cbn zeta in Hx, Hy.
  assert (x (pos (remap t params p)) = nan /\ y (pos (remap t params p)) = nan) as (Ex & Ey).
  { cbn [remap pos x y]. unfold julia_re, julia_im. cbn [add sub mul div lit FloatNum].
    apply orb_true_iff in H as [H|H]; apply is_nan_true in H; rewrite H;
      by repeat first
        [ rewrite div_nan_l | rewrite mul_nan_l | rewrite mul_nan_r | rewrite sub_nan_l
        | rewrite sub_nan_r | rewrite add_nan_l | rewrite add_nan_r ]. }
  destruct (Hx Ex), (Hy Ey). done.
Qed.

(** X16: in binary64 a particle never recovers from NaN.  If the x or the y
    of its position is NaN, then after every later update the x and the y of
    both its position and its velocity are NaN, whatever the clock, the
    deltas and the parameters of those updates are. *)
Theorem NaN_position_never_recovers (inputs : nat -> num * num * Params) (p : Particle) :
  is_nan (x (pos p)) || is_nan (y (pos p)) = true ->
  forall n, 0 < n ->
    let q := orbit inputs p n in
    is_nan (x (pos q)) = true /\ is_nan (y (pos q)) = true
    /\ is_nan (x (vel q)) = true /\ is_nan (y (vel q)) = true.
Proof.
  intros H n Hn. cbn zeta.
  assert (is_nan (x (pos (orbit inputs p (Nat.pred n))))
          || is_nan (y (pos (orbit inputs p (Nat.pred n)))) = true) as Hprev.
  { clear Hn. induction (Nat.pred n) as [|m IH]; [exact H|].
    cbn [orbit]. destruct (inputs m) as [[t dt] params].
    destruct (nan_position_one_step _ t dt params IH) as (-> & _). reflexivity. }
  destruct n as [|m]; [lia|]. cbn [Nat.pred] in Hprev. cbn [orbit].
  destruct (inputs m) as [[t dt] params].
  destruct (nan_position_one_step _ t dt params Hprev) as (-> & -> & -> & ->).
  done.
Qed.

(** *** A zero scale *)

Lemma nonfinite_nan : nonfinite nan.
Proof. by left. Qed.

Lemma div_by_zero (f s : float) : is_zero s = true -> nonfinite (f / s).
Proof.
  intros H. apply zero_spec in H as [b Hb]. unfold nonfinite.
  rewrite div_spec, Hb.
  destruct (Prim2SF f) as [[]|[]| |[] m e]; cbn; eauto.
Qed.

Lemma square_minus_square (f g : float) :
  nonfinite f -> nonfinite g -> (f * f - g * g)%float = nan.
Proof.
  intros Hf Hg. apply Prim2SF_inj. rewrite sub_spec, !mul_spec, Prim2SF_nan.
  destruct Hf as [->|[sf ->]], Hg as [->|[sg ->]]; cbn; try done.
  by destruct sf, sg.
Qed.

Lemma twice_times_plus_over_zero (f g c s : float) :
  nonfinite f -> nonfinite g -> is_zero s = true ->
  ((round_Q 2 * f * g + c) * s)%float = nan.
Proof.
  intros Hf Hg Hs. apply zero_spec in Hs as [b Hb].
  apply Prim2SF_inj. rewrite mul_spec, add_spec, !mul_spec, Hb, Prim2SF_nan.
  change (Prim2SF (round_Q 2)) with (S754_finite false 4503599627370496 (-51)).
  destruct Hf as [->|[sf ->]], Hg as [->|[sg ->]]; cbn;
    destruct (Prim2SF c) as [[]|[]| |[] m e]; cbn; try done;
    by destruct sf, sg.
Qed.

Lemma zero_scale_step (p : Particle) (t dt : num) (params : Params) :
  is_zero (scale params) = true ->
  let p' := algorithmStep p t dt params in
  x (pos p') = nan /\ y (pos p') = nan /\ x (vel p') = nan /\ y (vel p') = nan.
Proof.
  intros Hs. cbn zeta.
  destruct (remapped_nan_spreads p t dt params) as (Hx & Hy). cbn zeta in Hx, Hy.
  pose proof (div_by_zero (x (pos p)) _ Hs) as Nx.
  pose proof (div_by_zero (y (pos p)) _ Hs) as Ny.
  assert (x (pos (remap t params p)) = nan) as Ex.
  { cbn [remap pos x]. unfold julia_re. cbn [add sub mul div FloatNum].
    rewrite (square_minus_square _ _ Nx Ny). by rewrite add_nan_l, mul_nan_l. }
  assert (y (pos (remap t params p)) = nan) as Ey.
  { cbn [remap pos y]. unfold julia_im. cbn [add sub mul div lit FloatNum].
    by apply twice_times_plus_over_zero. }
  destruct (Hx Ex) as (-> & ->), (Hy Ey) as (-> & ->). done.
Qed.

(** X17: in binary64 a zero [scale] is not an error and turns every particle
    into NaN in one update: whatever the particle, the clock, the delta and
    the other parameters, the x and the y of its position and of its velocity
    are NaN afterwards.  One running frame does this to the whole pool. *)
Theorem zero_scale_yields_NaN (p : Particle) (t dt : num) (params : Params) :
  is_zero (scale params) = true ->
  let p' := algorithmStep p t dt params in
  (is_nan (x (pos p')) = true /\ is_nan (y (pos p')) = true
   /\ is_nan (x (vel p')) = true /\ is_nan (y (vel p')) = true)
  /\ (forall (delta : num) (s : Component),
        paused params = false ->
        Forall (fun o => is_nan (x (pos (fields o))) = true
                         /\ is_nan (y (pos (fields o))) = true)
          (particles_current (Particles_useFrame delta params s))).
Proof.
  intros Hs. cbn zeta. split.
  - by destruct (zero_scale_step p t dt params Hs) as (-> & -> & -> & ->).
  - intros delta s Hp. rewrite useFrame_pool by done.
    apply Forall_forall. intros o Ho.
    apply list_elem_of_fmap in Ho as (o' & -> & _). cbn [stepped fields].
    by destruct (zero_scale_step (fields o') (clock_current s + delta)%js
                   (Math_min delta (lit 0.033)) params Hs) as (-> & -> & _).
Qed.

(** *** Attraction switched off, the particle at rest *)

Lemma rest_component (v r a dt sp : float) :
  is_zero v = true -> is_zero a = true ->
  is_finite r = true -> is_finite dt = true -> is_finite (dt * sp) = true ->
  let v1 := (v + - r * a * dt)%float in
  let q := (r + v1 * (dt * sp))%float in
  is_zero (v1 * round_Q 0.96) = true
  /\ abs q = abs r
  /\ (is_zero r = false -> q = r)
  /\ (is_zero r = true -> is_zero q = true).
Proof.
  intros Hv Ha Hr Hdt Hs. cbn zeta.
  destruct (no_pull r a dt Ha Hr Hdt) as [b Hz].
  destruct (add_zero v _ b Hz) as (_ & _ & E). specialize (E Hv).
  apply zero_spec in E as [b1 E1]. split.
  - by apply (mul_zero_l _ _ b1).
  - pose proof (mul_zero_l _ _ b1 E1 Hs) as E2. apply zero_spec in E2 as [b2 E2].
    apply (add_zero r _ b2 E2).
Qed.

Lemma rest_step_spec (a : Axis) (inputs : nat -> num * num * Params) (p : Particle) (k : nat) :
  rest_step host_sin a inputs p k = true ->
  is_zero (coordinate a (vel (orbit inputs p k))) = true ->
  let r := coordinate a (remapped inputs p k) in
  let q := coordinate a (pos (orbit inputs p (S k))) in
  is_zero (coordinate a (vel (orbit inputs p (S k)))) = true
  /\ abs q = abs r
  /\ (is_zero r = false -> q = r)
  /\ (is_zero r = true -> is_zero q = true).
Proof.
  unfold rest_step, free_step, remapped. cbn [orbit].
  destruct (inputs k) as [[t dt] params]. intros H Hv.
  apply andb_true_iff in H as [H Hs]. apply andb_true_iff in H as [H Hr].
  apply andb_true_iff in H as [Ha Hdt]. cbn zeta.
  destruct (algorithmStep_fields (orbit inputs p k) t dt params) as [-> ->].
  destruct a; cbn [coordinate x y z attract vel pos] in *; by apply rest_component.
Qed.

(** X10: in binary64, with attraction switched off, integration adds nothing
    to a particle at rest.  Through every update in which [attraction] is a
    zero and [dt], [dt * speed] and the coordinate written back are finite,
    a velocity coordinate that is a zero stays a zero, and the position
    coordinate the update leaves is the one it wrote back (for x and y the
    image of the plane point under [z <- z^2 + c], times [scale]), but for
    the sign of a zero. *)
Theorem resting_particles_follow_the_orbit (inputs : nat -> num * num * Params)
    (p : Particle) (a : Axis) (n : nat) :
  is_zero (coordinate a (vel p)) = true ->
  (forall k, k < n -> rest_step host_sin a inputs p k = true) ->
  is_zero (coordinate a (vel (orbit inputs p n))) = true
  /\ (forall k, k < n ->
        let r := coordinate a (remapped inputs p k) in
        let q := coordinate a (pos (orbit inputs p (S k))) in
        abs q = abs r
        /\ (is_zero r = false -> q = r)
        /\ (is_zero r = true -> is_zero q = true)).
Proof.
  intros Hv H.
  assert (forall k, k <= n -> is_zero (coordinate a (vel (orbit inputs p k))) = true) as Hrest.
  { induction k as [|k IH]; intros Hk; [exact Hv|].
    apply (rest_step_spec a inputs p k); [apply H; lia|apply IH; lia]. }
  split; [by apply Hrest|].
  intros k Hk. apply (rest_step_spec a inputs p k); [by apply H|apply Hrest; lia].
Qed.

End FloatExtras.

Lemma resting_particles_follow_the_orbit_witness :
  is_zero 0%float = true
  /\ forall host_sin : float -> float,
       let q k := @orbit (FloatNum host_sin) (scenario_updates host_sin) (at_rest host_sin) k in
       is_zero (@coordinate (FloatNum host_sin) axis_x (vel (q 3))) = true
       /\ (forall k, k < 3 ->
             let r := @coordinate (FloatNum host_sin) axis_x
                        (@remapped (FloatNum host_sin) (scenario_updates host_sin)
                           (at_rest host_sin) k) in
             let c := @coordinate (FloatNum host_sin) axis_x (pos (q (S k))) in
             abs c = abs r
             /\ (is_zero r = false -> c = r)
             /\ (is_zero r = true -> is_zero c = true)).
Proof.
  split; [reflexivity|]. intros host_sin.
  apply (resting_particles_follow_the_orbit host_sin (scenario_updates host_sin)
           (at_rest host_sin) axis_x 3).
  - reflexivity.
  - intros k Hk. destruct k as [|[|[|k]]]; [vm_compute; reflexivity ..|lia].
Defined.

Lemma NaN_position_never_recovers_witness :
  is_nan nan || is_nan 1%float = true
  /\ forall host_sin : float -> float,
       let q := @orbit (FloatNum host_sin) (scenario_updates host_sin) (lost host_sin) 3 in
       is_nan (x (pos q)) = true /\ is_nan (y (pos q)) = true
       /\ is_nan (x (vel q)) = true /\ is_nan (y (vel q)) = true.
Proof.
  split; [reflexivity|]. intros host_sin.
  apply (NaN_position_never_recovers host_sin (scenario_updates host_sin) (lost host_sin)
           eq_refl 3).
  lia.
Defined.

Lemma zero_scale_yields_NaN_witness :
  is_zero (round_Q 0) = true
  /\ forall host_sin : float -> float,
       let p' := @algorithmStep (FloatNum host_sin) (at_rest host_sin)
                   (round_Q 5) (round_Q 0.016) (zero_scale_params host_sin) in
       is_nan (x (pos p')) = true /\ is_nan (y (pos p')) = true
       /\ is_nan (x (vel p')) = true /\ is_nan (y (vel p')) = true.
Proof.
  split; [reflexivity|]. intros host_sin.
  apply (zero_scale_yields_NaN host_sin (at_rest host_sin)
           (round_Q 5) (round_Q 0.016) (zero_scale_params host_sin) eq_refl).
Defined.
